(** * Header theme switching of the vindex site: a shallow embedding

    The repository ships two near-duplicate scripts that toggle the
    [data-theme] attribute of the page header while the user scrolls:

    - the script with the initial-state resolver ([calculateInitialTheme])
      and the deferred re-baseline, embedded below as [Module Part000];
    - [src/scripts/headerTheme.js], embedded as [Module HeaderTheme];

    and [src/scripts/scrollAnimations.js], whose scroll triggers share the
    same ScrollTrigger registry, embedded as [Module ScrollAnimations].

    Modelling choices:
    - pixel offsets are integers ([Z]); JavaScript's [Infinity] is a
      separate value of [num];
    - the document is the list of its elements in document order, each
      with its vertical extent in document coordinates, so that
      [getBoundingClientRect] depends on the scroll offset;
    - attributes live in a store keyed by element identity and attribute
      name; the ScrollTrigger registry is a list of instances with
      distinct identities;
    - the browser and the library are an explicit [World] threaded through
      a state-and-exception monad; every externally visible operation is
      appended to a trace;
    - which callbacks ScrollTrigger fires while a trigger is being created
      is a parameter of the world ([w_fires]), and after installation any
      callback of any registered trigger may fire ([step]);
    - scrolling across a boundary runs the callbacks of the triggers that
      start or end there, in registry order forwards and in reverse
      registry order backwards ([cross_forward], [cross_backward]);
    - what a GSAP tween writes to the inline style of its targets and what
      [querySelectorAll] matches are parameters of the world ([w_render],
      [w_descendants]); an invalid selector raises a [SyntaxError].

    The file first gives the embedding and the vocabulary of the
    properties, then the lemmas about running the scripts, then one
    theorem per property. *)

From Stdlib Require Import ZArith String Ascii List Lia DecimalString.
From stdpp Require Import base option list gmap strings relations.
Import ListNotations.

Local Open Scope string_scope.
Local Open Scope Z_scope.
Local Open Scope list_scope.

(** ** Data model *)

(** The two values ever written to [data-theme]. *)
Inductive Theme := light | dark.

Definition theme_str (t : Theme) : string :=
  match t with light => "light" | dark => "dark" end.

Definition opposite (t : Theme) : Theme :=
  match t with light => dark | dark => light end.

#[global] Instance Theme_eq_dec : EqDecision Theme.
Proof. solve_decision. Defined.

(** A DOM element: its identity ([el_node], standing for the object
    reference), the [id] attribute, the class list, and its vertical
    extent in document coordinates. *)
Record Element := {
  el_node : nat;
  el_id : option string;
  el_classes : list string;
  el_top : Z;
  el_bottom : Z
}.

#[global] Instance Element_eq_dec : EqDecision Element.
Proof. solve_decision. Defined.

(** [DOMRect] as returned by [getBoundingClientRect]: viewport
    coordinates. *)
Record Rect := { top : Z; bottom : Z }.

Definition getBoundingClientRect (e : Element) (scrollY : Z) : Rect :=
  {| top := el_top e - scrollY; bottom := el_bottom e - scrollY |}.

(** Selector matching for the two selector shapes the scripts use:
    ["#id"] and [".class"]. *)
Definition matches (selector : string) (e : Element) : bool :=
  match selector with
  | String "#" name => bool_decide (el_id e = Some name)
  | String "." name => bool_decide (name ∈ el_classes e)
  | _ => false
  end.

(** [document.querySelector]: the first match in document order, or
    [None] for JavaScript's [null]. *)
Definition querySelector (selector : string) (doc : list Element)
  : option Element :=
  List.find (matches selector) doc.

Definition getElementById (name : string) (doc : list Element)
  : option Element :=
  List.find (fun e => bool_decide (el_id e = Some name)) doc.

(** JavaScript truthiness of an object-or-null. *)
Definition truthy {A} (o : option A) : bool :=
  match o with Some _ => true | None => false end.

(** [a || b] on object-or-null values. *)
Definition js_or {A} (a b : option A) : option A :=
  match a with Some _ => a | None => b end.

(** Numbers that may be [Infinity]. *)
Inductive num := Fin (z : Z) | Infinity.

Definition num_lt (a b : num) : bool :=
  match a, b with
  | Fin x, Fin y => x <? y
  | Fin _, Infinity => true
  | Infinity, _ => false
  end.

Definition num_sub (a : num) (k : Z) : num :=
  match a with Fin x => Fin (x - k) | Infinity => Infinity end.

(** The four directional callback slots of a scroll trigger. *)
Inductive Slot := SEnter | SLeave | SEnterBack | SLeaveBack.

(** Every callback in the scripts is an arrow function
    [() => setTheme(t)]; [setTheme] itself closes over [header] and
    [megaMenu].  The closure is kept as data. *)
Inductive Closure :=
  SetThemeFn (header : Element) (megaMenu : option Element) (theme : Theme).

Definition closure_theme (c : Closure) : Theme :=
  match c with SetThemeFn _ _ t => t end.

(** What a trigger is bound to: a selector string or an element. *)
Inductive Target := TSelector (s : string) | TElement (e : Element).

(** The configuration object handed to [ScrollTrigger.create] (and to the
    [scrollTrigger] key of a tween).  Absent keys are [None]. *)
Record Vars := {
  v_id : option string;
  v_trigger : Target;
  v_start : option string;
  v_end : option string;
  v_refreshPriority : option Z;
  onEnter : option Closure;
  onLeaveBack : option Closure;
  onLeave : option Closure;
  onEnterBack : option Closure;
  v_scrub : bool;
  v_toggleActions : option string
}.

#[global] Instance Slot_eq_dec : EqDecision Slot.
Proof. solve_decision. Defined.
#[global] Instance Closure_eq_dec : EqDecision Closure.
Proof. solve_decision. Defined.
#[global] Instance Target_eq_dec : EqDecision Target.
Proof. solve_decision. Defined.
#[global] Instance Vars_eq_dec : EqDecision Vars.
Proof. solve_decision. Defined.

Definition callback (v : Vars) (s : Slot) : option Closure :=
  match s with
  | SEnter => onEnter v
  | SLeave => onLeave v
  | SEnterBack => onEnterBack v
  | SLeaveBack => onLeaveBack v
  end.

(** A live ScrollTrigger instance: [tr_handle] is the object identity. *)
Record Trigger := { tr_handle : nat; tr_vars : Vars }.

(** The two scripts. *)
Inductive Script := ScriptPart000 | ScriptHeaderTheme.

(** Deferred work: the functions passed to [setTimeout],
    [addEventListener("load", _)] and [requestAnimationFrame]. *)
Inductive Task :=
| TaskInitThemeTriggers (s : Script) (header : Element) (megaMenu : option Element)
| TaskOnLoad (s : Script) (header : Element) (megaMenu : option Element)
| TaskRebaseline (header : Element) (megaMenu : option Element).

Inductive ReadyState := Loading | Interactive | Complete.

(** Ghost trace of the externally visible operations, oldest first. *)
Inductive Action :=
| ARegisterPlugin
| AKill (handle : nat) (id : option string)
| ARefresh
| ASetAttribute (node : nat) (name value : string)
| ACreate (v : Vars)
| ACallback (id : option string) (s : Slot)
| ARequestAnimationFrame
| ASetTimeout (ms : Z)
| AAddEventListener (event : string).

(** The browser and library state.  [w_fires] is the ScrollTrigger
    library's choice of which callbacks of a freshly created trigger it
    invokes synchronously, as a function of layout, scroll offset and the
    trigger's configuration; it is left arbitrary.  [w_descendants] is what
    [element.querySelectorAll(selector)] matches, [None] when the browser
    rejects the selector.  [w_render] is the inline style GSAP writes to a
    tween target while the tween is being created, if it writes one. *)
Record World := {
  w_doc : list Element;
  w_scrollY : Z;
  w_readyState : ReadyState;
  w_attrs : gmap (nat * string) string;
  w_triggers : list Trigger;
  w_next : nat;
  w_fires : list Element -> Z -> Vars -> list Slot;
  w_descendants : Element -> string -> option (list Element);
  w_render : Element -> option string;
  w_plugin : bool;
  w_timers : list (Z * Task);
  w_listeners : list (string * Task);
  w_frames : list Task;
  w_log : list Action
}.

Definition set_scrollY (y : Z) (w : World) : World :=
  {| w_doc := w_doc w; w_scrollY := y; w_readyState := w_readyState w;
     w_attrs := w_attrs w; w_triggers := w_triggers w; w_next := w_next w;
     w_fires := w_fires w;
     w_descendants := w_descendants w; w_render := w_render w;
     w_plugin := w_plugin w; w_timers := w_timers w;
     w_listeners := w_listeners w; w_frames := w_frames w; w_log := w_log w |}.

Definition set_attrs (a : gmap (nat * string) string) (w : World) : World :=
  {| w_doc := w_doc w; w_scrollY := w_scrollY w; w_readyState := w_readyState w;
     w_attrs := a; w_triggers := w_triggers w; w_next := w_next w;
     w_fires := w_fires w;
     w_descendants := w_descendants w; w_render := w_render w;
     w_plugin := w_plugin w; w_timers := w_timers w;
     w_listeners := w_listeners w; w_frames := w_frames w; w_log := w_log w |}.

Definition set_triggers (ts : list Trigger) (w : World) : World :=
  {| w_doc := w_doc w; w_scrollY := w_scrollY w; w_readyState := w_readyState w;
     w_attrs := w_attrs w; w_triggers := ts; w_next := w_next w;
     w_fires := w_fires w;
     w_descendants := w_descendants w; w_render := w_render w;
     w_plugin := w_plugin w; w_timers := w_timers w;
     w_listeners := w_listeners w; w_frames := w_frames w; w_log := w_log w |}.

Definition set_next (n : nat) (w : World) : World :=
  {| w_doc := w_doc w; w_scrollY := w_scrollY w; w_readyState := w_readyState w;
     w_attrs := w_attrs w; w_triggers := w_triggers w; w_next := n;
     w_fires := w_fires w;
     w_descendants := w_descendants w; w_render := w_render w;
     w_plugin := w_plugin w; w_timers := w_timers w;
     w_listeners := w_listeners w; w_frames := w_frames w; w_log := w_log w |}.

Definition set_plugin (b : bool) (w : World) : World :=
  {| w_doc := w_doc w; w_scrollY := w_scrollY w; w_readyState := w_readyState w;
     w_attrs := w_attrs w; w_triggers := w_triggers w; w_next := w_next w;
     w_fires := w_fires w;
     w_descendants := w_descendants w; w_render := w_render w;
     w_plugin := b; w_timers := w_timers w;
     w_listeners := w_listeners w; w_frames := w_frames w; w_log := w_log w |}.

Definition set_timers (l : list (Z * Task)) (w : World) : World :=
  {| w_doc := w_doc w; w_scrollY := w_scrollY w; w_readyState := w_readyState w;
     w_attrs := w_attrs w; w_triggers := w_triggers w; w_next := w_next w;
     w_fires := w_fires w;
     w_descendants := w_descendants w; w_render := w_render w;
     w_plugin := w_plugin w; w_timers := l;
     w_listeners := w_listeners w; w_frames := w_frames w; w_log := w_log w |}.

Definition set_listeners (l : list (string * Task)) (w : World) : World :=
  {| w_doc := w_doc w; w_scrollY := w_scrollY w; w_readyState := w_readyState w;
     w_attrs := w_attrs w; w_triggers := w_triggers w; w_next := w_next w;
     w_fires := w_fires w;
     w_descendants := w_descendants w; w_render := w_render w;
     w_plugin := w_plugin w; w_timers := w_timers w;
     w_listeners := l; w_frames := w_frames w; w_log := w_log w |}.

Definition set_frames (l : list Task) (w : World) : World :=
  {| w_doc := w_doc w; w_scrollY := w_scrollY w; w_readyState := w_readyState w;
     w_attrs := w_attrs w; w_triggers := w_triggers w; w_next := w_next w;
     w_fires := w_fires w;
     w_descendants := w_descendants w; w_render := w_render w;
     w_plugin := w_plugin w; w_timers := w_timers w;
     w_listeners := w_listeners w; w_frames := l; w_log := w_log w |}.

Definition set_log (l : list Action) (w : World) : World :=
  {| w_doc := w_doc w; w_scrollY := w_scrollY w; w_readyState := w_readyState w;
     w_attrs := w_attrs w; w_triggers := w_triggers w; w_next := w_next w;
     w_fires := w_fires w;
     w_descendants := w_descendants w; w_render := w_render w;
     w_plugin := w_plugin w; w_timers := w_timers w;
     w_listeners := w_listeners w; w_frames := w_frames w; w_log := l |}.

(** ** The effect monad: state plus JavaScript exceptions *)

Inductive JsError :=
| TypeError (msg : string)
| SyntaxError (msg : string).

Inductive Result (A : Type) :=
| Ok (a : A) (w : World)
| Throw (e : JsError).
Arguments Ok {A} a w.
Arguments Throw {A} e.

Definition M (A : Type) : Type := World -> Result A.

Definition ret {A} (a : A) : M A := fun w => Ok a w.

Definition bind {A B} (m : M A) (k : A -> M B) : M B :=
  fun w => match m w with
           | Ok a w' => k a w'
           | Throw e => Throw e
           end.

Definition throw {A} (e : JsError) : M A := fun _ => Throw e.

Declare Scope js_scope.
Delimit Scope js_scope with js.
Notation "x ← y ; z" := (bind y (fun x => z))
  (at level 20, y at level 100, z at level 200, only parsing) : js_scope.
Notation "x ;; z" := (bind x (fun _ => z))
  (at level 100, z at level 200, only parsing, right associativity) : js_scope.
Local Open Scope js_scope.

Definition get : M World := fun w => Ok w w.
Definition modify (f : World -> World) : M unit := fun w => Ok tt (f w).
Definition emit (a : Action) : M unit :=
  modify (fun w => set_log (w_log w ++ [a]) w).

(** [Array.prototype.forEach], passing element and index. *)
Fixpoint forEach_from {A} (i : nat) (f : A -> nat -> M unit) (l : list A)
  : M unit :=
  match l with
  | [] => ret tt
  | x :: l' => f x i ;; forEach_from (S i) f l'
  end.

Definition forEach {A} (f : A -> nat -> M unit) (l : list A) : M unit :=
  forEach_from 0%nat f l.

(** ** Browser primitives *)

Definition document_querySelector (selector : string) : M (option Element) :=
  fun w => Ok (querySelector selector (w_doc w)) w.

Definition document_getElementById (name : string) : M (option Element) :=
  fun w => Ok (getElementById name (w_doc w)) w.

Definition setAttribute (e : Element) (name value : string) : M unit :=
  modify (fun w => set_attrs (<[(el_node e, name) := value]> (w_attrs w)) w);;
  emit (ASetAttribute (el_node e) name value).

Definition getAttribute (e : Element) (name : string) (w : World)
  : option string :=
  w_attrs w !! (el_node e, name).

(** A selector list that is empty, or whose first selector starts with a
    combinator, is not a valid argument of [querySelectorAll]. *)
Fixpoint trim_left (s : string) : string :=
  match s with
  | String " " s' => trim_left s'
  | _ => s
  end.

Definition invalid_selector (selector : string) : bool :=
  match trim_left selector with
  | EmptyString => true
  | String c _ => existsb (Ascii.eqb c) [">"; "+"; "~"; ","]%char
  end.

(** [element.querySelectorAll(selector)]: an invalid selector raises a
    [SyntaxError]. *)
Definition element_querySelectorAll (e : Element) (selector : string)
  : M (list Element) :=
  if invalid_selector selector
  then throw (SyntaxError "not a valid selector")
  else
    w ← get;
    match w_descendants w e selector with
    | Some l => ret l
    | None => throw (SyntaxError "not a valid selector")
    end.

Definition requestAnimationFrame (t : Task) : M unit :=
  modify (fun w => set_frames (w_frames w ++ [t]) w);;
  emit ARequestAnimationFrame.

Definition setTimeout (t : Task) (ms : Z) : M unit :=
  modify (fun w => set_timers (w_timers w ++ [(ms, t)]) w);;
  emit (ASetTimeout ms).

Definition addEventListener (event : string) (t : Task) : M unit :=
  modify (fun w => set_listeners (w_listeners w ++ [(event, t)]) w);;
  emit (AAddEventListener event).

(** [String.prototype.startsWith] invoked as a method: calling it on
    [undefined] raises a [TypeError]. *)
Definition startsWith (receiver : option string) (prefix : string) : M bool :=
  match receiver with
  | Some s => ret (String.prefix prefix s)
  | None => throw (TypeError "Cannot read properties of undefined")
  end.

(** The optional-chaining call [receiver?.method(..)]: short-circuits to
    [undefined] (falsy) when the receiver is [undefined]. *)
Definition opt_chain {A} (receiver : option A) (call : option A -> M bool)
  : M bool :=
  match receiver with
  | None => ret false
  | Some _ => call receiver
  end.

(** ** GSAP / ScrollTrigger primitives *)

Definition gsap_registerPlugin : M unit :=
  modify (set_plugin true) ;; emit ARegisterPlugin.

(** [ScrollTrigger.getAll()]: a snapshot of the registry. *)
Definition ScrollTrigger_getAll : M (list Trigger) :=
  fun w => Ok (w_triggers w) w.

(** [trigger.kill()]: removes that very instance from the registry. *)
Definition kill (t : Trigger) : M unit :=
  modify (fun w =>
    set_triggers
      (List.filter (fun u => negb (Nat.eqb (tr_handle u) (tr_handle t)))
         (w_triggers w)) w);;
  emit (AKill (tr_handle t) (v_id (tr_vars t))).

(** [ScrollTrigger.refresh()]: triggers cache no geometry in this model,
    so only the call itself is recorded. *)
Definition ScrollTrigger_refresh : M unit := emit ARefresh.

(** Running a closure [() => setTheme(theme)], with [setTheme] as both
    scripts define it. *)
Definition setTheme (header : Element) (megaMenu : option Element)
  (theme : Theme) : M unit :=
  setAttribute header "data-theme" (theme_str theme) ;;
  match megaMenu with
  | Some m => setAttribute m "data-theme" (theme_str theme)
  | None => ret tt
  end.

Definition call (c : Closure) : M unit :=
  match c with SetThemeFn h m t => setTheme h m t end.

(** The library invoking slot [s] of trigger [t]: a missing callback is
    skipped. *)
Definition fire (t : Trigger) (s : Slot) : M unit :=
  match callback (tr_vars t) s with
  | Some c => emit (ACallback (v_id (tr_vars t)) s) ;; call c
  | None => ret tt
  end.

(** [ScrollTrigger.create(vars)]: registers a new instance and runs the
    callbacks the library decides to invoke synchronously. *)
Definition ScrollTrigger_create (v : Vars) : M unit :=
  w ← get;
  let t := {| tr_handle := w_next w; tr_vars := v |} in
  modify (fun w => set_next (S (w_next w)) (set_triggers (w_triggers w ++ [t]) w));;
  emit (ACreate v) ;;
  forEach (fun s _ => fire t s) (w_fires w (w_doc w) (w_scrollY w) v).

(** [gsap.to(targets, vars)] and [gsap.from(targets, vars)].  A tween
    animates the inline style of its targets: what it writes while it is
    being created is the library's ([w_render]); a [scrollTrigger] key in
    its vars then registers a trigger with that configuration.  Animated
    properties, durations and easings stay with the library. *)
Definition gsap_tween (targets : list Element) (scrollTrigger : option Vars)
  : M unit :=
  w ← get;
  forEach (fun target _ =>
    match w_render w target with
    | Some css => setAttribute target "style" css
    | None => ret tt
    end) targets;;
  match scrollTrigger with
  | Some vars => ScrollTrigger_create vars
  | None => ret tt
  end.

Definition gsap_to := gsap_tween.
Definition gsap_from := gsap_tween.

(** The loop that opens [initThemeTriggers] in both scripts:
    [ScrollTrigger.getAll().forEach((trigger) => { if
    (trigger.vars.id?.startsWith("theme-")) trigger.kill(); })]. *)
Definition killThemeTriggers : M unit :=
  all ← ScrollTrigger_getAll;
  forEach (fun trigger _ =>
    b ← opt_chain (v_id (tr_vars trigger)) (fun r => startsWith r "theme-");
    if b then kill trigger else ret tt) all.

(** Number to decimal string, for template literals. *)
Definition show_nat (n : nat) : string :=
  NilZero.string_of_uint (Nat.to_uint n).

(** The arrow function [() => setTheme(theme)] in a callback slot. *)
Definition arrow (header : Element) (megaMenu : option Element) (theme : Theme)
  : option Closure :=
  Some (SetThemeFn header megaMenu theme).

(** The keys every theme binding of both scripts sets the same way:
    [start: "top 100px"] and [refreshPriority: -1]. *)
Definition theme_vars (id : string) (trigger : string) (end_ : option string)
  (enter leaveBack leave enterBack : option Closure) : Vars :=
  {| v_id := Some id; v_trigger := TSelector trigger;
     v_start := Some "top 100px"; v_end := end_;
     v_refreshPriority := Some (-1);
     onEnter := enter; onLeaveBack := leaveBack;
     onLeave := leave; onEnterBack := enterBack;
     v_scrub := false; v_toggleActions := None |}.

(** ** The script with the initial-state resolver *)

Module Part000.

Definition contentSections : list string :=
  [".cabinet-preview"; ".section-contact"; ".section-presentation";
   ".section-domaines"; ".section-articles"; ".section-content";
   ".section-philosophy"].

(** One iteration of the [contentSections.forEach] body, as an update of
    the local [firstContentTop]. *)
Definition visit (doc : list Element) (scrollY : Z)
  (firstContentTop : num) (selector : string) : num :=
  match querySelector selector doc with
  | Some section =>
      let rect := getBoundingClientRect section scrollY in
      let absoluteTop := top rect + scrollY in
      if num_lt (Fin absoluteTop) firstContentTop
      then Fin absoluteTop else firstContentTop
  | None => firstContentTop
  end.

Definition firstContentTop (doc : list Element) (scrollY : Z) : num :=
  fold_left (visit doc scrollY) contentSections Infinity.

Definition hasHero (doc : list Element) : option Element :=
  js_or (querySelector ".hero" doc) (querySelector ".page-hero" doc).

Definition calculateInitialTheme (doc : list Element) (scrollY : Z) : Theme :=
  let scrollPosition := scrollY in
  if truthy (hasHero doc)
     && num_lt (Fin scrollPosition) (num_sub (firstContentTop doc scrollY) 100)
  then dark else light.

Definition subPageLightSections : list string :=
  [".section-presentation"; ".section-domaines"; ".section-articles";
   ".section-content"; ".section-philosophy"].

Section Bindings.
Variables (header : Element) (megaMenu : option Element).

Local Abbreviation set := (arrow header megaMenu).

Definition theme_cabinet : Vars :=
  theme_vars "theme-cabinet" ".cabinet-preview" None
    (set light) (set dark) None None.

Definition theme_audience : Vars :=
  theme_vars "theme-audience" ".target-audience" None
    (set dark) (set light) None None.

Definition theme_cta : Vars :=
  theme_vars "theme-cta" ".final-cta" (Some "bottom 100px")
    (set light) (set dark) (set dark) (set light).

Definition theme_contact_section : Vars :=
  theme_vars "theme-contact-section" ".section-contact" None
    (set light) (set dark) None None.

Definition theme_faq_section : Vars :=
  theme_vars "theme-faq-section" ".section-faq" (Some "bottom 100px")
    (set light) None (set dark) (set light).

Definition theme_subpage_light (selector : string) (index : nat) : Vars :=
  theme_vars ("theme-subpage-light-" ++ show_nat index) selector None
    (set light) (set dark) None None.

Definition theme_subpage_cta : Vars :=
  theme_vars "theme-subpage-cta" ".final-cta" (Some "bottom 100px")
    (set light) (set light) (set dark) (set light).

(** The callback handed to [requestAnimationFrame]. *)
Definition rebaseline : M unit :=
  w ← get;
  let theme := calculateInitialTheme (w_doc w) (w_scrollY w) in
  setTheme header megaMenu theme.

Definition initThemeTriggers : M unit :=
  killThemeTriggers;;
  ScrollTrigger_refresh;;
  w ← get;
  let initialTheme := calculateInitialTheme (w_doc w) (w_scrollY w) in
  setTheme header megaMenu initialTheme;;
  ScrollTrigger_create theme_cabinet;;
  ScrollTrigger_create theme_audience;;
  ScrollTrigger_create theme_cta;;
  ScrollTrigger_create theme_contact_section;;
  ScrollTrigger_create theme_faq_section;;
  forEach (fun selector index =>
    section ← document_querySelector selector;
    if truthy section
    then ScrollTrigger_create (theme_subpage_light selector index)
    else ret tt) subPageLightSections;;
  footerWrapper ← document_querySelector ".footer-wrapper";
  (if truthy footerWrapper then
     finalCTA ← document_querySelector ".final-cta";
     if truthy finalCTA
     then ScrollTrigger_create theme_subpage_cta
     else ret tt
   else ret tt);;
  requestAnimationFrame (TaskRebaseline header megaMenu).
End Bindings.

Definition initHeaderThemeLogic : M unit :=
  gsap_registerPlugin;;
  header ← document_querySelector "#main-header";
  megaMenu ← document_getElementById "mega-menu";
  match header with
  | None => ret tt
  | Some header =>
      w ← get;
      match w_readyState w with
      | Complete =>
          setTimeout (TaskInitThemeTriggers ScriptPart000 header megaMenu) 300
      | _ =>
          addEventListener "load" (TaskOnLoad ScriptPart000 header megaMenu)
      end
  end.

End Part000.

(** ** [src/scripts/headerTheme.js] *)

Module HeaderTheme.

Definition subPageLightSections : list string :=
  [".section-presentation"; ".section-domaines"; ".section-articles";
   ".section-content"; ".section-philosophy"].

Section Bindings.
Variables (header : Element) (megaMenu : option Element).

Local Abbreviation set := (arrow header megaMenu).

Definition theme_cabinet : Vars :=
  theme_vars "theme-cabinet" ".cabinet-preview" None
    (set light) (set dark) None None.

Definition theme_audience : Vars :=
  theme_vars "theme-audience" ".target-audience" None
    (set dark) (set light) None None.

Definition theme_cta : Vars :=
  theme_vars "theme-cta" ".final-cta" (Some "bottom 100px")
    (set light) (set dark) (set dark) (set light).

Definition theme_contact_section : Vars :=
  theme_vars "theme-contact-section" ".section-contact" None
    (set light) (set dark) None None.

Definition theme_faq_section : Vars :=
  theme_vars "theme-faq-section" ".section-faq" (Some "bottom 100px")
    (set light) None (set dark) (set light).

Definition theme_subpage_light (selector : string) (index : nat) : Vars :=
  theme_vars ("theme-subpage-light-" ++ show_nat index) selector None
    (set light) (set dark) None None.

Definition theme_subpage_footer : Vars :=
  theme_vars "theme-subpage-footer" ".footer-wrapper" None
    (set dark) (set light) None None.

Definition initThemeTriggers : M unit :=
  killThemeTriggers;;
  ScrollTrigger_refresh;;
  ScrollTrigger_create theme_cabinet;;
  ScrollTrigger_create theme_audience;;
  ScrollTrigger_create theme_cta;;
  ScrollTrigger_create theme_contact_section;;
  ScrollTrigger_create theme_faq_section;;
  forEach (fun selector index =>
    section ← document_querySelector selector;
    if truthy section
    then ScrollTrigger_create (theme_subpage_light selector index)
    else ret tt) subPageLightSections;;
  footerWrapper ← document_querySelector ".footer-wrapper";
  if truthy footerWrapper
  then ScrollTrigger_create theme_subpage_footer
  else ret tt.
End Bindings.

Definition initHeaderThemeLogic : M unit :=
  gsap_registerPlugin;;
  header ← document_querySelector "#main-header";
  megaMenu ← document_getElementById "mega-menu";
  match header with
  | None => ret tt
  | Some header =>
      w ← get;
      match w_readyState w with
      | Complete =>
          setTimeout (TaskInitThemeTriggers ScriptHeaderTheme header megaMenu) 300
      | _ =>
          addEventListener "load" (TaskOnLoad ScriptHeaderTheme header megaMenu)
      end
  end.

End HeaderTheme.

(** ** [src/scripts/scrollAnimations.js]

    [initParallax], [initSectionEntrance], [cleanupAnimations] and
    [refreshAnimations].  The two hero entrance functions animate the
    matches of document-wide selector lists and are not embedded. *)

Module ScrollAnimations.

(** The part of [HeroAnimationConfig] that reaches a scroll trigger; the
    tween durations and easings do not. *)
Record HeroAnimationConfig := {
  parallaxDistance : Z;
  parallaxEnd : string
}.

Definition PAGE_HERO_CONFIG : HeroAnimationConfig :=
  {| parallaxDistance := -50; parallaxEnd := "bottom top" |}.

Definition MAIN_HERO_CONFIG : HeroAnimationConfig :=
  {| parallaxDistance := -100; parallaxEnd := "640vh top" |}.

Definition parallax_vars (config : HeroAnimationConfig) : Vars :=
  {| v_id := None; v_trigger := TSelector "body";
     v_start := Some "top top"; v_end := Some (parallaxEnd config);
     v_refreshPriority := None;
     onEnter := None; onLeaveBack := None; onLeave := None; onEnterBack := None;
     v_scrub := true; v_toggleActions := None |}.

Definition initParallax (config : HeroAnimationConfig) : M unit :=
  heroContent ← document_querySelector ".hero-container";
  heroBg ← document_querySelector ".hero-bg";
  match heroContent, heroBg with
  | Some heroContent, Some _ =>
      gsap_to [heroContent] (Some (parallax_vars config))
  | _, _ => ret tt
  end.

Definition entrance_vars (section : Element) (start : string) : Vars :=
  {| v_id := None; v_trigger := TElement section;
     v_start := Some start; v_end := None;
     v_refreshPriority := None;
     onEnter := None; onLeaveBack := None; onLeave := None; onEnterBack := None;
     v_scrub := false; v_toggleActions := Some "play none none reverse" |}.

(** [childSelector] and [start] are the two options that reach the DOM
    and the trigger; [default_childSelector] and [default_start] are what
    the destructuring pattern supplies for an option left out. *)
Definition default_childSelector : string := "> *".
Definition default_start : string := "top 80%".

Definition initSectionEntrance (sectionSelector childSelector start : string)
  : M unit :=
  section ← document_querySelector sectionSelector;
  match section with
  | None => ret tt
  | Some section =>
      children ← element_querySelectorAll section childSelector;
      if Nat.eqb (length children) 0 then ret tt
      else gsap_from children (Some (entrance_vars section start))
  end.

Definition cleanupAnimations : M unit :=
  all ← ScrollTrigger_getAll;
  forEach (fun trigger _ => kill trigger) all.

Definition refreshAnimations : M unit := ScrollTrigger_refresh.

End ScrollAnimations.

(** ** The event loop *)

Definition run_task (t : Task) : M unit :=
  match t with
  | TaskInitThemeTriggers ScriptPart000 h m => Part000.initThemeTriggers h m
  | TaskInitThemeTriggers ScriptHeaderTheme h m => HeaderTheme.initThemeTriggers h m
  | TaskOnLoad s h m => setTimeout (TaskInitThemeTriggers s h m) 300
  | TaskRebaseline h m => Part000.rebaseline h m
  end.


(** Events after which control returns to the browser: the user scrolls,
    the library invokes a callback slot of a registered trigger, a queued
    animation-frame callback or timer runs, a registered listener is
    notified, or a running tween writes the inline style of an element. *)
Inductive step : World -> World -> Prop :=
| step_scroll w y :
    step w (set_scrollY y w)
| step_fire w t s w' :
    t ∈ w_triggers w -> fire t s w = Ok tt w' -> step w w'
| step_frame w task rest w' :
    w_frames w = task :: rest ->
    run_task task (set_frames rest w) = Ok tt w' -> step w w'
| step_timer w before ms task rest w' :
    w_timers w = before ++ (ms, task) :: rest ->
    run_task task (set_timers (before ++ rest) w) = Ok tt w' -> step w w'
| step_listener w ev task w' :
    (ev, task) ∈ w_listeners w -> run_task task w = Ok tt w' -> step w w'
| step_style w e css w' :
    setAttribute e "style" css w = Ok tt w' -> step w w'.

(** Runs every queued animation-frame callback, oldest first. *)
Fixpoint flush_frames (fs : list Task) : M unit :=
  match fs with
  | [] => ret tt
  | f :: fs' => run_task f;; flush_frames fs'
  end.

Definition next_frame : M unit :=
  w ← get;
  modify (set_frames []);;
  flush_frames (w_frames w).

(** ** Specification vocabulary *)

Definition num_le (a b : num) : Prop := num_lt b a = false.

(** [m] is the minimum absolute top offset among the candidate content
    sections present in [doc] (so at least one is present). *)
Definition min_candidate_top (doc : list Element) (m : Z) : Prop :=
  (exists sel e, sel ∈ Part000.contentSections /\
                 querySelector sel doc = Some e /\ el_top e = m) /\
  (forall sel e, sel ∈ Part000.contentSections ->
                 querySelector sel doc = Some e -> m <= el_top e).

(** The theme the header currently carries, if it carries one of the two. *)
Definition header_theme (header : Element) (w : World) : option Theme :=
  match getAttribute header "data-theme" w with
  | Some "light" => Some light
  | Some "dark" => Some dark
  | _ => None
  end.

(** The header carries exactly one of the two theme values. *)
Definition themed (header : Element) (w : World) : Prop :=
  exists! t : Theme, getAttribute header "data-theme" w = Some (theme_str t).

(** A trigger whose id starts with the theme namespace prefix. *)
Definition is_theme (t : Trigger) : bool :=
  match v_id (tr_vars t) with
  | Some s => String.prefix "theme-" s
  | None => false
  end.

Definition theme_id (v : Vars) : Prop :=
  exists s, v_id v = Some s /\ String.prefix "theme-" s = true.

(** Registry left by the kill loop when it walks the snapshot [l]. *)
Definition kill_from (l : list Trigger) (ts : list Trigger) : list Trigger :=
  fold_left (fun ts t =>
    if is_theme t
    then List.filter (fun u => negb (Nat.eqb (tr_handle u) (tr_handle t))) ts
    else ts) l ts.

Definition kill_log (l : list Trigger) : list Action :=
  flat_map (fun t =>
    if is_theme t then [AKill (tr_handle t) (v_id (tr_vars t))] else []) l.

(** Trace of one [setTheme] call. *)
Definition theme_log (h : Element) (m : option Element) (t : Theme)
  : list Action :=
  ASetAttribute (el_node h) "data-theme" (theme_str t) ::
  match m with
  | Some e => [ASetAttribute (el_node e) "data-theme" (theme_str t)]
  | None => []
  end.

(** Trace of the library invoking the given slots of a trigger. *)
Definition slot_log (v : Vars) (s : Slot) : list Action :=
  match callback v s with
  | Some (SetThemeFn h m t) => ACallback (v_id v) s :: theme_log h m t
  | None => []
  end.

Definition slots_log (v : Vars) (ss : list Slot) : list Action :=
  flat_map (slot_log v) ss.

(** Which slots the library fires when a trigger is created in [w]. *)
Definition fired (w : World) (v : Vars) : list Slot :=
  w_fires w (w_doc w) (w_scrollY w) v.

Definition create_log (w : World) (v : Vars) : list Action :=
  ACreate v :: slots_log v (fired w v).

(** Trace of a tween rendering its targets while it is created. *)
Definition render_log (w : World) (targets : list Element) : list Action :=
  flat_map (fun e =>
    match w_render w e with
    | Some css => [ASetAttribute (el_node e) "style" css]
    | None => []
    end) targets.

(** Fresh trigger instances for a list of configurations. *)
Fixpoint fresh (n : nat) (vs : list Vars) : list Trigger :=
  match vs with
  | [] => []
  | v :: vs' => {| tr_handle := n; tr_vars := v |} :: fresh (S n) vs'
  end.

(** The attribute store is determined by the trace. *)
Definition replay (acts : list Action) (a : gmap (nat * string) string)
  : gmap (nat * string) string :=
  fold_left (fun a act =>
    match act with
    | ASetAttribute n k v => <[(n, k) := v]> a
    | _ => a
    end) acts a.

(** The world reached from [w] by a run that appended [acts] to the
    trace, left the registry as [ts] with next handle [n], and queued the
    frame callbacks [fr]. *)
Definition after (w : World) (acts : list Action) (ts : list Trigger)
  (n : nat) (fr : list Task) : World :=
  {| w_doc := w_doc w; w_scrollY := w_scrollY w;
     w_readyState := w_readyState w;
     w_attrs := replay acts (w_attrs w);
     w_triggers := ts; w_next := n;
     w_fires := w_fires w; w_descendants := w_descendants w;
     w_render := w_render w;
     w_plugin := w_plugin w; w_timers := w_timers w;
     w_listeners := w_listeners w;
     w_frames := w_frames w ++ fr;
     w_log := w_log w ++ acts |}.

(** The sub-page light bindings the indexed loop creates for [doc]. *)
Fixpoint light_plan (mk : string -> nat -> Vars) (doc : list Element)
  (i : nat) (sels : list string) : list Vars :=
  match sels with
  | [] => []
  | sel :: sels' =>
      (if truthy (querySelector sel doc) then [mk sel i] else [])
      ++ light_plan mk doc (S i) sels'
  end.

(** The bindings the two scripts share. *)
Definition common_plan (h : Element) (m : option Element)
  (doc : list Element) : list Vars :=
  [Part000.theme_cabinet h m; Part000.theme_audience h m;
   Part000.theme_cta h m; Part000.theme_contact_section h m;
   Part000.theme_faq_section h m]
  ++ light_plan (Part000.theme_subpage_light h m) doc 0
       Part000.subPageLightSections.

(** The page plan of each script: the configurations it hands to
    [ScrollTrigger.create], in order, for a document. *)
Definition plan_part000 (h : Element) (m : option Element)
  (doc : list Element) : list Vars :=
  common_plan h m doc ++
  (if truthy (querySelector ".footer-wrapper" doc)
      && truthy (querySelector ".final-cta" doc)
   then [Part000.theme_subpage_cta h m] else []).

Definition plan_headerTheme (h : Element) (m : option Element)
  (doc : list Element) : list Vars :=
  common_plan h m doc ++
  (if truthy (querySelector ".footer-wrapper" doc)
   then [HeaderTheme.theme_subpage_footer h m] else []).

Definition plan (s : Script) : Element -> option Element -> list Element -> list Vars :=
  match s with
  | ScriptPart000 => plan_part000
  | ScriptHeaderTheme => plan_headerTheme
  end.

(** The configurations recorded as created in a trace. *)
Definition created (acts : list Action) : list Vars :=
  omap (fun a => match a with ACreate v => Some v | _ => None end) acts.

(** The traces of the two installation routines. *)
Definition trace_part000 (h : Element) (m : option Element) (w : World)
  : list Action :=
  kill_log (w_triggers w)
  ++ [ARefresh]
  ++ theme_log h m (Part000.calculateInitialTheme (w_doc w) (w_scrollY w))
  ++ flat_map (create_log w) (plan_part000 h m (w_doc w))
  ++ [ARequestAnimationFrame].

Definition trace_headerTheme (h : Element) (m : option Element) (w : World)
  : list Action :=
  kill_log (w_triggers w)
  ++ [ARefresh]
  ++ flat_map (create_log w) (plan_headerTheme h m (w_doc w)).

(** The part of the trace a run from [w] to [w'] appended, and the
    bindings it created. *)
Definition new_log (w w' : World) : list Action :=
  drop (length (w_log w)) (w_log w').

Definition bindings_created (w w' : World) : list Vars :=
  created (new_log w w').

(** An action writes, if anything, one of the two theme values. *)
Definition theme_valued (a : Action) : Prop :=
  match a with
  | ASetAttribute _ _ v => v = "light" \/ v = "dark"
  | _ => True
  end.

(** The kill loop, walking snapshot [l], removes instance [u]. *)
Definition killed (l : list Trigger) (u : Trigger) : bool :=
  existsb (fun t => is_theme t && Nat.eqb (tr_handle u) (tr_handle t)) l.

(** The registry is well formed: instances have distinct identities, all
    below the next one to be handed out. *)
Definition wf_registry (w : World) : Prop :=
  NoDup (map tr_handle (w_triggers w)) /\
  Forall (fun t => (tr_handle t < w_next w)%nat) (w_triggers w).

(** The same document with every element matching [selector] removed. *)
Definition remove_section (selector : string) (doc : list Element)
  : list Element :=
  List.filter (fun e => negb (matches selector e)) doc.

Definition set_doc (d : list Element) (w : World) : World :=
  {| w_doc := d; w_scrollY := w_scrollY w; w_readyState := w_readyState w;
     w_attrs := w_attrs w; w_triggers := w_triggers w; w_next := w_next w;
     w_fires := w_fires w;
     w_descendants := w_descendants w; w_render := w_render w;
     w_plugin := w_plugin w;
     w_timers := w_timers w;
     w_listeners := w_listeners w; w_frames := w_frames w; w_log := w_log w |}.

(** The section a binding is bound to is present in [doc]. *)
Definition section_present (v : Vars) (doc : list Element) : Prop :=
  match v_trigger v with
  | TSelector sel => is_Some (querySelector sel doc)
  | TElement e => e ∈ doc
  end.

(** ** Scrolling across a boundary

    ScrollTrigger updates the registered triggers in registry order while
    the page scrolls forwards and in reverse registry order while it
    scrolls backwards; triggers that start at the same scroll position
    keep the order in which they were created.  [group] lists, in
    registry order, the registered triggers that start or end at the
    position being crossed.  Crossing it forwards runs [onEnter] of those
    that start there and [onLeave] of those that end there; crossing it
    backwards runs [onLeaveBack] and [onEnterBack]. *)
Inductive Edge := AtStart | AtEnd.

Definition forward_slot (e : Edge) : Slot :=
  match e with AtStart => SEnter | AtEnd => SLeave end.

Definition backward_slot (e : Edge) : Slot :=
  match e with AtStart => SLeaveBack | AtEnd => SEnterBack end.

Definition cross_forward (group : list (Trigger * Edge)) : M unit :=
  forEach (fun te _ => fire te.1 (forward_slot te.2)) group.

Definition cross_backward (group : list (Trigger * Edge)) : M unit :=
  forEach (fun te _ => fire te.1 (backward_slot te.2)) (rev group).

(** Scrolling forward past the boundary and then back above it. *)
Definition round_trip (group : list (Trigger * Edge)) : M unit :=
  cross_forward group;; cross_backward group.

(** Two configurations start at the same position on every page when
    they are bound to the same target with the same start expression. *)
Definition same_start (v u : Vars) : bool :=
  bool_decide (v_trigger v = v_trigger u /\ v_start v = v_start u).

(** The registered triggers that start where [v] does. *)
Definition starting_with (v : Vars) (ts : list Trigger)
  : list (Trigger * Edge) :=
  map (fun t => (t, AtStart))
    (List.filter (fun t => same_start v (tr_vars t)) ts).

(** The rules a round trip over [group] runs, in the order in which it
    runs them, and the themes they apply. *)
Definition round_trip_rules (group : list (Vars * Edge)) : list (Vars * Slot) :=
  map (fun ve => (ve.1, forward_slot ve.2)) group
  ++ map (fun ve => (ve.1, backward_slot ve.2)) (rev group).

Definition rule_theme (r : Vars * Slot) : option Theme :=
  closure_theme <$> callback r.1 r.2.

(** The theme the round trip over [group] leaves: that of the last rule
    it runs. *)
Definition round_trip_theme (group : list (Vars * Edge)) : option Theme :=
  last (omap rule_theme (round_trip_rules group)).

(** The configurations of a group of triggers. *)
Definition group_vars (group : list (Trigger * Edge)) : list (Vars * Edge) :=
  map (fun te => (tr_vars te.1, te.2)) group.

(** Two configurations agree on everything but, possibly, the theme the
    leave-back rule applies. *)
Definition same_up_to_leave_back (v1 v2 : Vars) : Prop :=
  v_id v1 = v_id v2 /\ v_trigger v1 = v_trigger v2 /\
  v_start v1 = v_start v2 /\ v_end v1 = v_end v2 /\
  v_refreshPriority v1 = v_refreshPriority v2 /\
  onEnter v1 = onEnter v2 /\ onLeave v1 = onLeave v2 /\
  onEnterBack v1 = onEnterBack v2.

(** Once script [s] has installed its triggers, the header carries one
    of the two theme values in every state the page can reach. *)
Definition theme_always_defined (s : Script) : Prop :=
  forall h m w w1,
    run_task (TaskInitThemeTriggers s h m) w = Ok tt w1 ->
    forall w2, rtc step w1 w2 -> themed h w2.

(** ** Sample documents *)

Definition section (node : nat) (class : string) (t b : Z) : Element :=
  {| el_node := node; el_id := None; el_classes := [class];
     el_top := t; el_bottom := b |}.

Definition main_header : Element :=
  {| el_node := 0; el_id := Some "main-header"; el_classes := ["header"];
     el_top := 0; el_bottom := 100 |}.

Definition mega_menu : Element :=
  {| el_node := 1; el_id := Some "mega-menu"; el_classes := [];
     el_top := 100; el_bottom := 500 |}.

Definition page_hero : Element := section 2 "page-hero" 0 600.
Definition section_content : Element := section 3 "section-content" 600 2400.
Definition final_cta : Element := section 4 "final-cta" 2400 2900.
Definition footer_wrapper : Element := section 5 "footer-wrapper" 2400 3400.
Definition section_faq : Element := section 6 "section-faq" 600 1500.
Definition hero_container : Element := section 7 "hero-container" 0 600.
Definition hero_bg : Element := section 8 "hero-bg" 0 600.

(** A freshly loaded page: nothing registered, nothing queued. *)
Definition page (doc : list Element) (scrollY : Z)
  (attrs : gmap (nat * string) string)
  (fires : list Element -> Z -> Vars -> list Slot) : World :=
  {| w_doc := doc; w_scrollY := scrollY; w_readyState := Complete;
     w_attrs := attrs; w_triggers := []; w_next := 0;
     w_fires := fires; w_descendants := fun _ _ => Some [];
     w_render := fun _ => None;
     w_plugin := false; w_timers := []; w_listeners := [];
     w_frames := []; w_log := [] |}.

(** What the library fires at creation on a page at rest whose sections
    all start below the header margin.  A trigger whose selector matches
    nothing is bound to [body]: with [start: "top 100px"] its start lies
    100px above the top of the page, so it is entered as soon as it exists
    and its [onEnter] runs at once.  A trigger on a section further down
    is not entered yet. *)
Definition fires_on_load : list Element -> Z -> Vars -> list Slot :=
  fun doc _ v =>
    match v_trigger v with
    | TSelector sel =>
        if truthy (querySelector sel doc) then []
        else if bool_decide (v_start v = Some "top 100px") then [SEnter]
        else []
    | TElement _ => []
    end.

Definition subpage_doc : list Element :=
  [main_header; mega_menu; page_hero; section_content; final_cta; footer_wrapper].

Definition subpage : World := page subpage_doc 0 ∅ fires_on_load.

(** The page plan when every optional section is present. *)
Fixpoint full_light (mk : string -> nat -> Vars) (i : nat) (sels : list string)
  : list Vars :=
  match sels with
  | [] => []
  | sel :: sels' => mk sel i :: full_light mk (S i) sels'
  end.

Definition full_plan (s : Script) (h : Element) (m : option Element)
  : list Vars :=
  [Part000.theme_cabinet h m; Part000.theme_audience h m;
   Part000.theme_cta h m; Part000.theme_contact_section h m;
   Part000.theme_faq_section h m]
  ++ full_light (Part000.theme_subpage_light h m) 0
       Part000.subPageLightSections
  ++ match s with
     | ScriptPart000 => [Part000.theme_subpage_cta h m]
     | ScriptHeaderTheme => [HeaderTheme.theme_subpage_footer h m]
     end.

(** A registry holding triggers of the animations module next to a theme
    trigger. *)
Definition mixed_registry : World :=
  set_next 3
    (set_triggers
       [{| tr_handle := 0;
           tr_vars := ScrollAnimations.parallax_vars
                        ScrollAnimations.PAGE_HERO_CONFIG |};
        {| tr_handle := 1; tr_vars := Part000.theme_cabinet main_header None |};
        {| tr_handle := 2;
           tr_vars := ScrollAnimations.entrance_vars section_content "top 80%" |}]
       subpage).

(** The attribute writes of a trace, as a map: the last write to each
    attribute wins. *)
Definition writes (acts : list Action) : gmap (nat * string) string :=
  replay acts ∅.

(** The two scripts create, on every page, bindings that agree pairwise
    up to the theme of a leave-back rule. *)
Definition scripts_agree_up_to_leave_back : Prop :=
  forall h m w w1 w2,
    Part000.initThemeTriggers h m w = Ok tt w1 ->
    HeaderTheme.initThemeTriggers h m w = Ok tt w2 ->
    Forall2 same_up_to_leave_back (bindings_created w w1) (bindings_created w w2).

(** A page with a hero and an FAQ section whose header markup starts out
    dark. *)
Definition dark_page : World :=
  page [main_header; page_hero; section_faq; footer_wrapper] 0
    {[ (0%nat, "data-theme") := "dark" ]} fires_on_load.

(** The exported entry point of each script. *)
Definition entry_point (s : Script) : M unit :=
  match s with
  | ScriptPart000 => Part000.initHeaderThemeLogic
  | ScriptHeaderTheme => HeaderTheme.initHeaderThemeLogic
  end.

(** For every binding installed on a page, other than the sub-page
    call-to-action binding, scrolling forward past its start and back
    above it gives the header back the theme [pre] it had before; the
    triggers crossed are those bound to the binding's element with its
    start. *)
Definition every_round_trip_restores : Prop :=
  forall s h m w w1 v w0 pre w2,
    run_task (TaskInitThemeTriggers s h m) w = Ok tt w1 ->
    v ∈ bindings_created w w1 ->
    v_id v <> Some "theme-subpage-cta" ->
    w_triggers w0 = w_triggers w1 ->
    header_theme h w0 = Some pre ->
    round_trip (starting_with v (w_triggers w0)) w0 = Ok tt w2 ->
    header_theme h w2 = Some pre.

(** ** Page archetypes and the library at creation *)

(** Modelled from the spec: the markup of the three page archetypes
    (index.astro, contact.astro and the sub-pages) is not among the
    sources.  Each archetype has its own hand-authored sections; the
    sections authored for another archetype do not occur on its pages. *)
Inductive Archetype := Home | Contact | SubPage.

(** Modelled from the spec: the sections that the trigger tables of the
    other archetypes name and that the archetype's own table does not. *)
Definition foreign_sections (a : Archetype) : list string :=
  match a with
  | Home => [".section-contact"; ".section-faq"]
  | Contact => [".cabinet-preview"; ".target-audience"]
  | SubPage => [".cabinet-preview"; ".target-audience";
                ".section-contact"; ".section-faq"]
  end.

(** Modelled from the spec: [doc] is a page of archetype [a]. *)
Definition archetype_page (a : Archetype) (doc : list Element) : Prop :=
  Forall (fun sel => querySelector sel doc = None) (foreign_sections a).

(** The library enters, as soon as it creates it, a trigger with
    [start: "top 100px"] whose selector matches nothing: such a trigger is
    bound to [body] and starts 100px above the top of the page.  This is
    the behaviour the comments of the script with the resolver refer to
    ("even if ScrollTrigger.create fires onEnter"). *)
Definition enters_unmatched (w : World) : Prop :=
  forall v sel,
    v_trigger v = TSelector sel ->
    v_start v = Some "top 100px" ->
    querySelector sel (w_doc w) = None ->
    SEnter ∈ fired w v.

(** Removing one section from the document never costs a section that
    remains present any of its bindings. *)
Definition removal_never_suppresses : Prop :=
  forall s h m w sel w1 w2,
    run_task (TaskInitThemeTriggers s h m) w = Ok tt w1 ->
    run_task (TaskInitThemeTriggers s h m)
      (set_doc (remove_section sel (w_doc w)) w) = Ok tt w2 ->
    forall v,
      v ∈ bindings_created w w1 ->
      section_present v (remove_section sel (w_doc w)) ->
      v ∈ bindings_created (set_doc (remove_section sel (w_doc w)) w) w2.

(** A page without the header element, with triggers of the animations
    module already registered. *)
Definition headerless_page : World :=
  set_doc [mega_menu; page_hero; section_content] mixed_registry.

(** ** Further vocabulary *)

(** Header and mega menu carry the same [data-theme]. *)
Definition agree (h e : Element) (w : World) : Prop :=
  getAttribute h "data-theme" w = getAttribute e "data-theme" w.

(** An action writes, if anything, the [data-theme] of the header or of
    the mega menu. *)
Definition touches_only (h : Element) (m : option Element) (a : Action)
  : Prop :=
  match a with
  | ASetAttribute n k _ =>
      k = "data-theme" /\ (n = el_node h \/ exists e, m = Some e /\ n = el_node e)
  | _ => True
  end.

(** An action writes no attribute. *)
Definition silent (a : Action) : Prop :=
  match a with ASetAttribute _ _ _ => False | _ => True end.

(** Every callback of [v] is an arrow function closed over [h] and [m]. *)
Definition captures (h : Element) (m : option Element) (v : Vars) : Prop :=
  forall s c, callback v s = Some c -> exists t, c = SetThemeFn h m t.

(** The five bindings both scripts create without looking at the
    document. *)
Definition fixed_bindings (h : Element) (m : option Element) : list Vars :=
  [Part000.theme_cabinet h m; Part000.theme_audience h m;
   Part000.theme_cta h m; Part000.theme_contact_section h m;
   Part000.theme_faq_section h m].

(** A sub-page that is still loading when the script runs. *)
Definition loading_subpage : World :=
  {| w_doc := subpage_doc; w_scrollY := 0; w_readyState := Loading;
     w_attrs := ∅; w_triggers := []; w_next := 0;
     w_fires := fires_on_load; w_descendants := fun _ _ => Some [];
     w_render := fun _ => None;
     w_plugin := false; w_timers := []; w_listeners := [];
     w_frames := []; w_log := [] |}.

(** An action writes, if anything, the inline style of one of the
    elements [es]. *)
Definition styles_only (es : list Element) (a : Action) : Prop :=
  match a with
  | ASetAttribute n k _ => k = "style" /\ n ∈ map el_node es
  | _ => True
  end.

(** A page with the parallax markup on which GSAP renders the parallax
    tween at once, and a sub-page whose content section holds two cards
    that the entrance tween renders at once. *)
Definition parallax_page : World :=
  {| w_doc := [main_header; page_hero; hero_container; hero_bg; section_content];
     w_scrollY := 0; w_readyState := Complete;
     w_attrs := ∅; w_triggers := []; w_next := 0;
     w_fires := fires_on_load;
     w_descendants := fun _ _ => Some [];
     w_render := fun _ => Some "transform: translate(0px, 0px);";
     w_plugin := false; w_timers := []; w_listeners := [];
     w_frames := []; w_log := [] |}.

Definition card_a : Element := section 9 "card" 700 1000.
Definition card_b : Element := section 10 "card" 1000 1300.

Definition entrance_page : World :=
  {| w_doc := [main_header; mega_menu; page_hero; section_content;
               card_a; card_b; final_cta; footer_wrapper];
     w_scrollY := 0; w_readyState := Complete;
     w_attrs := ∅; w_triggers := []; w_next := 0;
     w_fires := fires_on_load;
     w_descendants := fun e sel =>
       if bool_decide (e = section_content /\ sel = ".card")
       then Some [card_a; card_b] else Some [];
     w_render := fun _ => Some "opacity: 0; transform: translate(0px, 40px);";
     w_plugin := false; w_timers := []; w_listeners := [];
     w_frames := []; w_log := [] |}.
(** * Properties *)

(** ** The initial-state resolver *)

Lemma num_le_refl a : num_le a a.
Proof. destruct a; unfold num_le; simpl; [apply Z.ltb_irrefl | done]. Qed.

Lemma num_le_trans a b c : num_le a b -> num_le b c -> num_le a c.
Proof.
  unfold num_le. destruct a, b, c; simpl; try done.
  rewrite !Z.ltb_ge. lia.
Qed.

(** In document coordinates the resolver's [absoluteTop] is the element's
    own top offset, whatever the scroll offset. *)
Lemma absoluteTop_scroll_independent e s :
  top (getBoundingClientRect e s) + s = el_top e.
Proof. simpl. lia. Qed.

Lemma visit_le doc s acc sel : num_le (Part000.visit doc s acc sel) acc.
Proof.
  unfold Part000.visit. destruct (querySelector sel doc) as [e|];
    [|apply num_le_refl].
  destruct (num_lt _ acc) eqn:E; [|apply num_le_refl].
  unfold num_le. destruct acc as [a|]; simpl in *; [|done].
  apply Z.ltb_lt in E. apply Z.ltb_ge. lia.
Qed.

Lemma visit_le_top doc s acc sel e :
  querySelector sel doc = Some e ->
  num_le (Part000.visit doc s acc sel) (Fin (el_top e)).
Proof.
  intros Hq. unfold Part000.visit. rewrite Hq.
  rewrite absoluteTop_scroll_independent.
  destruct (num_lt _ acc) eqn:E; [apply num_le_refl|exact E].
Qed.

Lemma visit_cases doc s acc sel :
  Part000.visit doc s acc sel = acc \/
  exists e, querySelector sel doc = Some e /\
            Part000.visit doc s acc sel = Fin (el_top e).
Proof.
  unfold Part000.visit. destruct (querySelector sel doc) as [e|]; [|by left].
  rewrite absoluteTop_scroll_independent.
  destruct (num_lt _ acc); [right; eauto | by left].
Qed.

(** The [forEach] loop over the candidates computes a lower bound of the
    starting value and of every present candidate's top, and the bound is
    attained. *)
Lemma fold_visit_spec doc s (l : list string) : forall acc,
  let r := fold_left (Part000.visit doc s) l acc in
  num_le r acc /\
  (forall sel e, sel ∈ l -> querySelector sel doc = Some e ->
                 num_le r (Fin (el_top e))) /\
  (r = acc \/
   exists sel e, sel ∈ l /\ querySelector sel doc = Some e /\ r = Fin (el_top e)).
Proof.
  induction l as [|x l IH]; intros acc; simpl.
  - split; [apply num_le_refl|]. split; [|by left].
    intros sel e Hin. by apply elem_of_nil in Hin.
  - destruct (IH (Part000.visit doc s acc x)) as (Hle & Hall & Hatt).
    split; [|split].
    + eapply num_le_trans; [exact Hle | apply visit_le].
    + intros sel e Hin Hq. apply elem_of_cons in Hin as [->|Hin].
      * eapply num_le_trans; [exact Hle | by apply visit_le_top].
      * by eapply Hall.
    + destruct Hatt as [Heq | (sel & e & Hin & Hq & Heq)].
      * rewrite Heq. destruct (visit_cases doc s acc x) as [->|(e & Hq & ->)];
          [by left|].
        right. exists x, e. split; [apply elem_of_cons; by left | done].
      * right. exists sel, e. split; [apply elem_of_cons; by right | done].
Qed.

Lemma firstContentTop_min doc s m :
  min_candidate_top doc m -> Part000.firstContentTop doc s = Fin m.
Proof.
  intros [(sel & e & Hin & Hq & Hm) Hlow].
  unfold Part000.firstContentTop.
  destruct (fold_visit_spec doc s Part000.contentSections Infinity)
    as (_ & Hall & Hatt).
  specialize (Hall sel e Hin Hq).
  destruct Hatt as [Heq | (sel' & e' & Hin' & Hq' & Heq)].
  - rewrite Heq in Hall. by unfold num_le in Hall.
  - rewrite Heq in *. f_equal.
    specialize (Hlow sel' e' Hin' Hq').
    unfold num_le in Hall. simpl in Hall. apply Z.ltb_ge in Hall. lia.
Qed.

Lemma firstContentTop_none doc s :
  (forall sel, sel ∈ Part000.contentSections -> querySelector sel doc = None) ->
  Part000.firstContentTop doc s = Infinity.
Proof.
  intros Hnone. unfold Part000.firstContentTop.
  destruct (fold_visit_spec doc s Part000.contentSections Infinity)
    as (_ & _ & Hatt).
  destruct Hatt as [Heq | (sel & e & Hin & Hq & _)]; [done|].
  rewrite (Hnone sel Hin) in Hq. discriminate.
Qed.

(** C1. With a hero-type section and at least one candidate content
    section present, [calculateInitialTheme] returns dark exactly when the
    scroll offset is strictly below the minimum absolute top of the present
    candidates minus 100, and light otherwise; without a hero-type section
    it returns light at every offset. *)
Theorem calculateInitialTheme_threshold :
  forall (doc : list Element) (s : Z),
    (Part000.hasHero doc = None ->
     Part000.calculateInitialTheme doc s = light) /\
    (forall m, is_Some (Part000.hasHero doc) -> min_candidate_top doc m ->
       (Part000.calculateInitialTheme doc s = dark <-> s < m - 100) /\
       (Part000.calculateInitialTheme doc s = light <-> ~ s < m - 100)).
Proof.
  intros doc s. unfold Part000.calculateInitialTheme. split.
  - intros ->. reflexivity.
  - intros m [h Hh] Hmin. rewrite Hh, (firstContentTop_min doc s m Hmin).
    simpl. destruct (Z.ltb_spec s (m - 100)); split; split;
      intros; try done; lia.
Qed.

(** C10. With a hero-type section present and none of the seven candidate
    sections present, [calculateInitialTheme] returns dark at every scroll
    offset. *)
Theorem calculateInitialTheme_hero_only_dark :
  forall (doc : list Element),
    is_Some (Part000.hasHero doc) ->
    (forall sel, sel ∈ Part000.contentSections -> querySelector sel doc = None) ->
    forall s : Z, Part000.calculateInitialTheme doc s = dark.
Proof.
  intros doc [h Hh] Hnone s. unfold Part000.calculateInitialTheme.
  by rewrite Hh, (firstContentTop_none doc s Hnone).
Qed.

(** ** Running the primitives *)

Lemma bind_Ok {A B} (m : M A) (k : A -> M B) w a w1 :
  m w = Ok a w1 -> bind m k w = k a w1.
Proof. unfold bind. by intros ->. Qed.

Lemma replay_app a1 a2 s : replay (a1 ++ a2) s = replay a2 (replay a1 s).
Proof. apply fold_left_app. Qed.

Lemma after_after w a1 t1 n1 f1 a2 t2 n2 f2 :
  after (after w a1 t1 n1 f1) a2 t2 n2 f2 = after w (a1 ++ a2) t2 n2 (f1 ++ f2).
Proof.
  unfold after; simpl. f_equal;
    [symmetry; apply replay_app | by rewrite app_assoc ..].
Qed.

Lemma after_nil w : after w [] (w_triggers w) (w_next w) [] = w.
Proof. destruct w; unfold after; simpl. by rewrite !app_nil_r. Qed.

Ltac world_eq :=
  match goal with
  | |- Ok tt ?a = Ok tt ?b => f_equal
  | _ => idtac
  end;
  match goal with
  | w : World |- _ => destruct w
  end;
  unfold after; simpl; f_equal; rewrite ?app_nil_r, <- ?app_assoc; done.

Lemma refresh_run w :
  ScrollTrigger_refresh w = Ok tt (after w [ARefresh] (w_triggers w) (w_next w) []).
Proof. unfold ScrollTrigger_refresh, emit, modify. world_eq. Qed.

Lemma setAttribute_run e k v w :
  setAttribute e k v w
  = Ok tt (after w [ASetAttribute (el_node e) k v] (w_triggers w) (w_next w) []).
Proof. unfold setAttribute, emit, modify, bind. world_eq. Qed.

Lemma setTheme_run h m t w :
  setTheme h m t w = Ok tt (after w (theme_log h m t) (w_triggers w) (w_next w) []).
Proof.
  unfold setTheme, theme_log.
  rewrite (bind_Ok _ _ _ _ _ (setAttribute_run _ _ _ _)).
  destruct m as [e|].
  - rewrite setAttribute_run. simpl w_triggers; simpl w_next.
    by rewrite after_after.
  - done.
Qed.

Lemma fire_run t s w :
  fire t s w
  = Ok tt (after w (slot_log (tr_vars t) s) (w_triggers w) (w_next w) []).
Proof.
  unfold fire, slot_log. destruct (callback (tr_vars t) s) as [[h m th]|].
  - unfold emit, modify, bind at 1. simpl call. rewrite setTheme_run.
    world_eq.
  - unfold ret. by rewrite after_nil.
Qed.

Lemma fire_all_run t ss : forall i w,
  forEach_from i (fun s (_ : nat) => fire t s) ss w
  = Ok tt (after w (slots_log (tr_vars t) ss) (w_triggers w) (w_next w) []).
Proof.
  induction ss as [|s ss IH]; intros i w; simpl.
  - unfold ret. by rewrite after_nil.
  - rewrite (bind_Ok _ _ _ _ _ (fire_run _ _ _)), IH.
    simpl w_triggers; simpl w_next. by rewrite after_after.
Qed.

Lemma create_run v w :
  ScrollTrigger_create v w
  = Ok tt (after w (create_log w v)
             (w_triggers w ++ [{| tr_handle := w_next w; tr_vars := v |}])
             (S (w_next w)) []).
Proof.
  unfold ScrollTrigger_create, create_log, fired, forEach.
  unfold get, emit, modify, bind at 1 2 3. rewrite fire_all_run.
  world_eq.
Qed.

Lemma opt_chain_run t w :
  opt_chain (v_id (tr_vars t)) (fun r => startsWith r "theme-") w
  = Ok (is_theme t) w.
Proof. unfold opt_chain, is_theme. by destruct (v_id (tr_vars t)). Qed.

Lemma kill_run t w :
  kill t w
  = Ok tt (after w [AKill (tr_handle t) (v_id (tr_vars t))]
             (List.filter (fun u => negb (Nat.eqb (tr_handle u) (tr_handle t)))
                (w_triggers w))
             (w_next w) []).
Proof. unfold kill, emit, modify, bind. world_eq. Qed.

Lemma kill_loop_run l : forall i w,
  forEach_from i (fun trigger (_ : nat) =>
      b ← opt_chain (v_id (tr_vars trigger)) (fun r => startsWith r "theme-");
      if b then kill trigger else ret tt) l w
  = Ok tt (after w (kill_log l) (kill_from l (w_triggers w)) (w_next w) []).
Proof.
  induction l as [|t l IH]; intros i w; simpl.
  - unfold ret. by rewrite after_nil.
  - unfold bind at 1.
    rewrite (bind_Ok _ _ _ _ _ (opt_chain_run _ _)).
    destruct (is_theme t).
    + rewrite kill_run, IH. simpl w_triggers; simpl w_next.
      by rewrite after_after.
    + unfold ret. rewrite IH. done.
Qed.

Lemma killThemeTriggers_run w :
  killThemeTriggers w
  = Ok tt (after w (kill_log (w_triggers w))
             (kill_from (w_triggers w) (w_triggers w)) (w_next w) []).
Proof.
  unfold killThemeTriggers, ScrollTrigger_getAll, forEach, bind at 1.
  apply kill_loop_run.
Qed.

Lemma requestAnimationFrame_run task w :
  requestAnimationFrame task w
  = Ok tt (after w [ARequestAnimationFrame] (w_triggers w) (w_next w) [task]).
Proof. unfold requestAnimationFrame, emit, modify, bind. world_eq. Qed.

Lemma get_run w : get w = Ok w w.
Proof. done. Qed.

Lemma querySelector_run sel w :
  document_querySelector sel w = Ok (querySelector sel (w_doc w)) w.
Proof. done. Qed.

Lemma fresh_app n vs1 vs2 :
  fresh n (vs1 ++ vs2) = fresh n vs1 ++ fresh (n + length vs1) vs2.
Proof.
  revert n. induction vs1 as [|v vs1 IH]; intros n; simpl.
  - by rewrite Nat.add_0_r.
  - rewrite IH. do 3 f_equal. lia.
Qed.

Lemma fresh_vars n vs : map tr_vars (fresh n vs) = vs.
Proof. revert n. induction vs as [|v vs IH]; intros n; simpl; by rewrite ?IH. Qed.

Lemma create_log_after w a t n f v : create_log (after w a t n f) v = create_log w v.
Proof. done. Qed.

Lemma create_log_after_fun w a t n f : create_log (after w a t n f) = create_log w.
Proof. done. Qed.

Lemma after_triggers w a t n f : w_triggers (after w a t n f) = t.
Proof. done. Qed.

Lemma after_next w a t n f : w_next (after w a t n f) = n.
Proof. done. Qed.

Lemma after_doc w a t n f : w_doc (after w a t n f) = w_doc w.
Proof. done. Qed.

Lemma after_scrollY w a t n f : w_scrollY (after w a t n f) = w_scrollY w.
Proof. done. Qed.

Lemma after_attrs w a t n f : w_attrs (after w a t n f) = replay a (w_attrs w).
Proof. done. Qed.

Lemma after_log w a t n f : w_log (after w a t n f) = w_log w ++ a.
Proof. done. Qed.

Lemma after_frames w a t n f : w_frames (after w a t n f) = w_frames w ++ f.
Proof. done. Qed.

Lemma render_log_after w a t n f : render_log (after w a t n f) = render_log w.
Proof. done. Qed.

Create Rewrite HintDb world.
#[local] Hint Rewrite after_after after_triggers after_next after_doc
  after_scrollY after_attrs after_log after_frames create_log_after
  create_log_after_fun render_log_after : world.

(** One statement of a routine: run it by its lemma and normalise the
    world reached. *)
Tactic Notation "step" uconstr(L) :=
  rewrite (bind_Ok _ _ _ _ _ L); autorewrite with world.

(** The indexed loop over [subPageLightSections]. *)
Lemma light_loop_run (mk : string -> nat -> Vars) sels : forall i w,
  forEach_from i (fun selector index =>
      section ← document_querySelector selector;
      if truthy section
      then ScrollTrigger_create (mk selector index)
      else ret tt) sels w
  = Ok tt (after w
             (flat_map (create_log w) (light_plan mk (w_doc w) i sels))
             (w_triggers w ++ fresh (w_next w) (light_plan mk (w_doc w) i sels))
             (w_next w + length (light_plan mk (w_doc w) i sels)) []).
Proof.
  induction sels as [|sel sels IH]; intros i w; simpl.
  - unfold ret. rewrite app_nil_r, Nat.add_0_r. by rewrite after_nil.
  - unfold bind at 1.
    rewrite (bind_Ok _ _ _ _ _ (querySelector_run _ _)).
    destruct (truthy (querySelector sel (w_doc w))); simpl.
    + rewrite create_run, IH, after_after.
      cbn [w_triggers w_next w_doc after]. do 2 f_equal.
      * by rewrite <- app_assoc.
      * lia.
    + unfold ret. by rewrite IH.
Qed.

(** The footer blocks that close the two installation routines. *)
Lemma footer_cta_run (fw : option Element) v w :
  (if truthy fw then
     finalCTA ← document_querySelector ".final-cta";
     if truthy finalCTA then ScrollTrigger_create v else ret tt
   else ret tt) w
  = let fp := if truthy fw && truthy (querySelector ".final-cta" (w_doc w))
              then [v] else [] in
    Ok tt (after w (flat_map (create_log w) fp)
             (w_triggers w ++ fresh (w_next w) fp)
             (w_next w + length fp) []).
Proof.
  destruct (truthy fw); simpl.
  - rewrite (bind_Ok _ _ _ _ _ (querySelector_run _ _)).
    destruct (truthy (querySelector ".final-cta" (w_doc w))); simpl.
    + rewrite create_run, app_nil_r. do 2 f_equal. lia.
    + unfold ret. by rewrite app_nil_r, Nat.add_0_r, after_nil.
  - unfold ret. by rewrite app_nil_r, Nat.add_0_r, after_nil.
Qed.

Lemma footer_wrapper_run (fw : option Element) v w :
  (if truthy fw then ScrollTrigger_create v else ret tt) w
  = let fp := if truthy fw then [v] else [] in
    Ok tt (after w (flat_map (create_log w) fp)
             (w_triggers w ++ fresh (w_next w) fp)
             (w_next w + length fp) []).
Proof.
  destruct (truthy fw); simpl.
  - rewrite create_run, app_nil_r. do 2 f_equal. lia.
  - unfold ret. by rewrite app_nil_r, Nat.add_0_r, after_nil.
Qed.

(** Reassociating the registry and the handle counter collected
    statement by statement into the form the page plan gives. *)
Lemma fresh_assemble (lp fp : list Vars) ts n v1 v2 v3 v4 v5 :
  ((((((ts ++ [{| tr_handle := n; tr_vars := v1 |}])
          ++ [{| tr_handle := S n; tr_vars := v2 |}])
         ++ [{| tr_handle := S (S n); tr_vars := v3 |}])
        ++ [{| tr_handle := S (S (S n)); tr_vars := v4 |}])
       ++ [{| tr_handle := S (S (S (S n))); tr_vars := v5 |}])
      ++ fresh (S (S (S (S (S n))))) lp)
     ++ fresh (S (S (S (S (S n)))) + length lp) fp
  = ts ++ fresh n (([v1; v2; v3; v4; v5] ++ lp) ++ fp).
Proof.
  rewrite !fresh_app. cbn [fresh length]. rewrite <- !app_assoc.
  cbn [app].
  replace (n + 5)%nat with (S (S (S (S (S n))))) by lia.
  replace (n + length (v1 :: v2 :: v3 :: v4 :: v5 :: lp))%nat
    with (S (S (S (S (S n)))) + length lp)%nat by (cbn [length]; lia).
  reflexivity.
Qed.

Lemma next_assemble (lp fp : list Vars) n v1 v2 v3 v4 v5 :
  (S (S (S (S (S n)))) + length lp + length fp
   = n + length (([v1; v2; v3; v4; v5] ++ lp) ++ fp))%nat.
Proof. rewrite !length_app. cbn [length]. lia. Qed.

(** What one run of [initThemeTriggers] does to the world, script by
    script: it cannot throw, and trace, registry and frame queue are as
    the page plan says. *)
Lemma part000_run h m w :
  Part000.initThemeTriggers h m w
  = Ok tt (after w (trace_part000 h m w)
             (kill_from (w_triggers w) (w_triggers w)
              ++ fresh (w_next w) (plan_part000 h m (w_doc w)))
             (w_next w + length (plan_part000 h m (w_doc w)))
             [TaskRebaseline h m]).
Proof.
  unfold Part000.initThemeTriggers, forEach.
  step (killThemeTriggers_run w).
  step (refresh_run _).
  step (get_run _). cbv zeta. autorewrite with world.
  step (setTheme_run h m (Part000.calculateInitialTheme (w_doc w) (w_scrollY w)) _).
  step (create_run (Part000.theme_cabinet h m) _).
  step (create_run (Part000.theme_audience h m) _).
  step (create_run (Part000.theme_cta h m) _).
  step (create_run (Part000.theme_contact_section h m) _).
  step (create_run (Part000.theme_faq_section h m) _).
  step (light_loop_run (Part000.theme_subpage_light h m)
          Part000.subPageLightSections 0 _).
  step (querySelector_run ".footer-wrapper" _).
  step (footer_cta_run (querySelector ".footer-wrapper" (w_doc w))
          (Part000.theme_subpage_cta h m) _).
  cbv zeta. autorewrite with world.
  rewrite requestAnimationFrame_run. autorewrite with world.
  unfold trace_part000, plan_part000, common_plan.
  f_equal. f_equal.
  - rewrite !flat_map_app. cbn [flat_map]. rewrite <- !app_assoc.
    reflexivity.
  - apply fresh_assemble.
  - apply next_assemble.
Qed.

Lemma headerTheme_run h m w :
  HeaderTheme.initThemeTriggers h m w
  = Ok tt (after w (trace_headerTheme h m w)
             (kill_from (w_triggers w) (w_triggers w)
              ++ fresh (w_next w) (plan_headerTheme h m (w_doc w)))
             (w_next w + length (plan_headerTheme h m (w_doc w)))
             []).
Proof.
  unfold HeaderTheme.initThemeTriggers, forEach.
  step (killThemeTriggers_run w).
  step (refresh_run _).
  step (create_run (HeaderTheme.theme_cabinet h m) _).
  step (create_run (HeaderTheme.theme_audience h m) _).
  step (create_run (HeaderTheme.theme_cta h m) _).
  step (create_run (HeaderTheme.theme_contact_section h m) _).
  step (create_run (HeaderTheme.theme_faq_section h m) _).
  step (light_loop_run (HeaderTheme.theme_subpage_light h m)
          HeaderTheme.subPageLightSections 0 _).
  step (querySelector_run ".footer-wrapper" _).
  rewrite footer_wrapper_run. cbv zeta. autorewrite with world.
  unfold trace_headerTheme, plan_headerTheme, common_plan.
  f_equal. f_equal.
  - rewrite !flat_map_app. cbn [flat_map]. rewrite <- !app_assoc.
    reflexivity.
  - apply fresh_assemble.
  - apply next_assemble.
Qed.

(** ** Teardown *)

Lemma kill_from_cons l : forall u ts,
  kill_from l (u :: ts)
  = if killed l u then kill_from l ts else u :: kill_from l ts.
Proof.
  induction l as [|t l IH]; intros u ts; [done|].
  unfold kill_from, killed in *. simpl.
  destruct (is_theme t); simpl; [|apply IH].
  destruct (Nat.eqb (tr_handle u) (tr_handle t)); simpl; [done|apply IH].
Qed.

Lemma kill_from_nil l : kill_from l [] = [].
Proof.
  induction l as [|t l IH]; [done|].
  unfold kill_from in *. simpl. by destruct (is_theme t).
Qed.

Lemma kill_from_filter l ts :
  kill_from l ts = List.filter (fun u => negb (killed l u)) ts.
Proof.
  induction ts as [|u ts IH]; simpl.
  - apply kill_from_nil.
  - rewrite kill_from_cons, IH. by destruct (killed l u).
Qed.

Lemma handle_inj ts t u :
  NoDup (map tr_handle ts) -> t ∈ ts -> u ∈ ts ->
  tr_handle t = tr_handle u -> t = u.
Proof.
  induction ts as [|x ts IH]; simpl; intros Hnd Ht Hu Heq.
  - by apply elem_of_nil in Ht.
  - apply NoDup_cons in Hnd as [Hx Hnd].
    apply elem_of_cons in Ht as [->|Ht]; apply elem_of_cons in Hu as [->|Hu];
      try done.
    + exfalso. apply Hx. rewrite Heq. apply list_elem_of_In, in_map.
      by apply list_elem_of_In.
    + exfalso. apply Hx. rewrite <- Heq. apply list_elem_of_In, in_map.
      by apply list_elem_of_In.
    + by apply IH.
Qed.

Lemma killed_self ts u :
  NoDup (map tr_handle ts) -> u ∈ ts -> killed ts u = is_theme u.
Proof.
  intros Hnd Hu. unfold killed. destruct (is_theme u) eqn:E.
  - apply existsb_exists. exists u. split; [by apply list_elem_of_In|].
    by rewrite E, Nat.eqb_refl.
  - apply not_true_is_false. intros H.
    apply existsb_exists in H as (t & Ht & Hb).
    apply andb_true_iff in Hb as [Hth Heq]. apply Nat.eqb_eq in Heq.
    apply list_elem_of_In in Ht.
    rewrite (handle_inj ts u t Hnd Hu Ht Heq) in E. congruence.
Qed.

(** With distinct instance identities the kill loop is a filter. *)
Lemma kill_from_wf ts :
  NoDup (map tr_handle ts) ->
  kill_from ts ts = List.filter (fun t => negb (is_theme t)) ts.
Proof.
  intros Hnd. rewrite kill_from_filter. apply filter_ext_in.
  intros u Hu. f_equal. apply killed_self; [done|by apply list_elem_of_In].
Qed.

Lemma light_plan_elem mk doc sels v : forall i,
  v ∈ light_plan mk doc i sels ->
  exists k sel, sels !! k = Some sel /\ v = mk sel (i + k)%nat /\
                is_Some (querySelector sel doc).
Proof.
  induction sels as [|sel sels IH]; intros i Hv; simpl in Hv.
  - by apply elem_of_nil in Hv.
  - apply elem_of_app in Hv as [Hv|Hv].
    + destruct (querySelector sel doc) eqn:E; simpl in Hv.
      * apply list_elem_of_singleton in Hv as ->. exists 0%nat, sel.
        split; [done|]. rewrite Nat.add_0_r. split; [done|]. by rewrite E.
      * by apply elem_of_nil in Hv.
    + destruct (IH _ Hv) as (k & sel' & Hk & -> & Hp).
      exists (S k), sel'. split; [done|]. split; [f_equal; lia|done].
Qed.

Lemma light_plan_intro mk doc sels : forall i k sel,
  sels !! k = Some sel -> is_Some (querySelector sel doc) ->
  mk sel (i + k)%nat ∈ light_plan mk doc i sels.
Proof.
  induction sels as [|x sels IH]; intros i k sel Hk [e He]; [done|].
  simpl. apply elem_of_app. destruct k as [|k]; simpl in Hk.
  - injection Hk as ->. left. rewrite He, Nat.add_0_r. simpl.
    by apply list_elem_of_singleton.
  - right. replace (i + S k)%nat with (S i + k)%nat by lia.
    apply IH; [done|]. by rewrite He.
Qed.

(** The shape of every binding either script creates. *)
Lemma plan_inv s h m doc v :
  v ∈ plan s h m doc ->
  v ∈ [Part000.theme_cabinet h m; Part000.theme_audience h m;
       Part000.theme_cta h m; Part000.theme_contact_section h m;
       Part000.theme_faq_section h m] \/
  (exists k sel, Part000.subPageLightSections !! k = Some sel /\
                 v = Part000.theme_subpage_light h m sel k /\
                 is_Some (querySelector sel doc)) \/
  (s = ScriptPart000 /\ v = Part000.theme_subpage_cta h m /\
   is_Some (querySelector ".footer-wrapper" doc) /\
   is_Some (querySelector ".final-cta" doc)) \/
  (s = ScriptHeaderTheme /\ v = HeaderTheme.theme_subpage_footer h m /\
   is_Some (querySelector ".footer-wrapper" doc)).
Proof.
  intros Hv.
  assert (Hc : v ∈ common_plan h m doc ->
    v ∈ [Part000.theme_cabinet h m; Part000.theme_audience h m;
         Part000.theme_cta h m; Part000.theme_contact_section h m;
         Part000.theme_faq_section h m] \/
    (exists k sel, Part000.subPageLightSections !! k = Some sel /\
                   v = Part000.theme_subpage_light h m sel k /\
                   is_Some (querySelector sel doc))).
  { unfold common_plan. intros H. apply elem_of_app in H as [H|H]; [by left|].
    right. by apply light_plan_elem in H. }
  destruct s; simpl in Hv; unfold plan_part000, plan_headerTheme in Hv;
    apply elem_of_app in Hv as [Hv|Hv];
    try (destruct (Hc Hv) as [?|?]; [by left | by right; left]).
  - destruct (querySelector ".footer-wrapper" doc) eqn:E1;
      destruct (querySelector ".final-cta" doc) eqn:E2; simpl in Hv;
      try by apply elem_of_nil in Hv.
    apply list_elem_of_singleton in Hv as ->. right; right; left.
    repeat split; eauto.
  - destruct (querySelector ".footer-wrapper" doc) eqn:E1; simpl in Hv;
      try by apply elem_of_nil in Hv.
    apply list_elem_of_singleton in Hv as ->. right; right; right.
    repeat split; eauto.
Qed.

Lemma plan_theme_id s h m doc v : v ∈ plan s h m doc -> theme_id v.
Proof.
  intros Hv. apply plan_inv in Hv.
  destruct Hv as [Hv | [(k & sel & _ & -> & _) | [(_ & -> & _) | (_ & -> & _)]]].
  - repeat (apply elem_of_cons in Hv as [->|Hv]; [eexists; split; by simpl|]).
    by apply elem_of_nil in Hv.
  - eexists. split; [reflexivity|]. reflexivity.
  - eexists. split; by simpl.
  - eexists. split; by simpl.
Qed.

Lemma fresh_is_theme n vs :
  Forall theme_id vs -> Forall (fun t => is_theme t = true) (fresh n vs).
Proof.
  intros H. revert n. induction H as [|v vs (s & Hs & Hp) _ IH]; intros n; simpl.
  - constructor.
  - constructor; [|apply IH]. unfold is_theme. simpl. by rewrite Hs.
Qed.

Lemma run_task_init s h m w :
  run_task (TaskInitThemeTriggers s h m) w
  = Ok tt (after w
             (match s with
              | ScriptPart000 => trace_part000 h m w
              | ScriptHeaderTheme => trace_headerTheme h m w
              end)
             (kill_from (w_triggers w) (w_triggers w)
              ++ fresh (w_next w) (plan s h m (w_doc w)))
             (w_next w + length (plan s h m (w_doc w)))
             (match s with
              | ScriptPart000 => [TaskRebaseline h m]
              | ScriptHeaderTheme => []
              end)).
Proof. destruct s; simpl; [apply part000_run | apply headerTheme_run]. Qed.

(** ** The animations module *)

Lemma render_run w0 targets : forall i w,
  forEach_from i (fun target (_ : nat) =>
      match w_render w0 target with
      | Some css => setAttribute target "style" css
      | None => ret tt
      end) targets w
  = Ok tt (after w (render_log w0 targets) (w_triggers w) (w_next w) []).
Proof.
  induction targets as [|e targets IH]; intros i w; simpl.
  - unfold ret. by rewrite after_nil.
  - unfold bind at 1. unfold render_log. cbn [flat_map].
    destruct (w_render w0 e) as [css|].
    + rewrite setAttribute_run, IH. simpl w_triggers; simpl w_next.
      by rewrite after_after.
    + unfold ret. by rewrite IH.
Qed.

Lemma tween_run targets v w :
  gsap_tween targets (Some v) w
  = Ok tt (after w (render_log w targets ++ create_log w v)
             (w_triggers w ++ [{| tr_handle := w_next w; tr_vars := v |}])
             (S (w_next w)) []).
Proof.
  unfold gsap_tween, forEach.
  step (get_run w). step (render_run w targets 0%nat w).
  rewrite create_run. by autorewrite with world.
Qed.

Lemma initParallax_run config w :
  ScrollAnimations.initParallax config w
  = match querySelector ".hero-container" (w_doc w),
          querySelector ".hero-bg" (w_doc w) with
    | Some heroContent, Some _ =>
        Ok tt (after w
                 (render_log w [heroContent]
                  ++ create_log w (ScrollAnimations.parallax_vars config))
                 (w_triggers w
                  ++ [{| tr_handle := w_next w;
                         tr_vars := ScrollAnimations.parallax_vars config |}])
                 (S (w_next w)) [])
    | _, _ => Ok tt w
    end.
Proof.
  unfold ScrollAnimations.initParallax.
  do 2 rewrite (bind_Ok _ _ _ _ _ (querySelector_run _ _)).
  destruct (querySelector ".hero-container" (w_doc w)) as [hc|],
           (querySelector ".hero-bg" (w_doc w)) as [hb|]; try done.
  apply tween_run.
Qed.

Lemma querySelectorAll_run e child w :
  element_querySelectorAll e child w
  = if invalid_selector child then Throw (SyntaxError "not a valid selector")
    else match w_descendants w e child with
         | Some l => Ok l w
         | None => Throw (SyntaxError "not a valid selector")
         end.
Proof.
  unfold element_querySelectorAll. destruct (invalid_selector child); [done|].
  unfold bind, get. by destruct (w_descendants w e child).
Qed.

Lemma initSectionEntrance_run sel child start w :
  ScrollAnimations.initSectionEntrance sel child start w
  = match querySelector sel (w_doc w) with
    | None => Ok tt w
    | Some e =>
        if invalid_selector child
        then Throw (SyntaxError "not a valid selector")
        else
          match w_descendants w e child with
          | None => Throw (SyntaxError "not a valid selector")
          | Some [] => Ok tt w
          | Some (c :: cs) =>
              Ok tt (after w
                       (render_log w (c :: cs)
                        ++ create_log w (ScrollAnimations.entrance_vars e start))
                       (w_triggers w
                        ++ [{| tr_handle := w_next w;
                               tr_vars := ScrollAnimations.entrance_vars e start |}])
                       (S (w_next w)) [])
          end
    end.
Proof.
  unfold ScrollAnimations.initSectionEntrance.
  rewrite (bind_Ok _ _ _ _ _ (querySelector_run _ _)).
  destruct (querySelector sel (w_doc w)) as [e|]; [|done].
  unfold bind at 1. rewrite querySelectorAll_run.
  destruct (invalid_selector child); [done|].
  destruct (w_descendants w e child) as [[|c cs]|]; [done| |done].
  apply tween_run.
Qed.

(** C7. The teardown loop never throws and leaves exactly the triggers
    whose id does not start with ["theme-"], triggers without an id among
    them, and writes no attribute; every trigger either script installs
    carries an id with that prefix; the trigger [initParallax] registers
    carries no id, and whenever [initSectionEntrance] returns, any trigger
    it has registered carries no id. *)
Theorem teardown_removes_exactly_theme_triggers :
  forall w : World,
    NoDup (map tr_handle (w_triggers w)) ->
    (exists w',
        killThemeTriggers w = Ok tt w' /\
        w_triggers w' = List.filter (fun t => negb (is_theme t)) (w_triggers w) /\
        (forall t, t ∈ w_triggers w -> v_id (tr_vars t) = None ->
                   t ∈ w_triggers w') /\
        w_attrs w' = w_attrs w) /\
    (forall s h m, exists w' new,
        run_task (TaskInitThemeTriggers s h m) w = Ok tt w' /\
        w_triggers w'
        = List.filter (fun t => negb (is_theme t)) (w_triggers w) ++ new /\
        map tr_vars new = plan s h m (w_doc w) /\
        Forall (fun t => is_theme t = true) new) /\
    (forall config, exists w' new,
        ScrollAnimations.initParallax config w = Ok tt w' /\
        w_triggers w' = w_triggers w ++ new /\
        Forall (fun t => v_id (tr_vars t) = None) new) /\
    (forall sel child start w',
        ScrollAnimations.initSectionEntrance sel child start w = Ok tt w' ->
        exists new,
          w_triggers w' = w_triggers w ++ new /\
          Forall (fun t => v_id (tr_vars t) = None) new).
Proof.
  intros w Hnd. split; [|split; [|split]].
  - eexists. split; [apply killThemeTriggers_run|].
    cbn [w_triggers w_attrs after]. rewrite (kill_from_wf _ Hnd).
    split; [done|]. split.
    + intros t Ht Hid. apply list_elem_of_In, filter_In.
      split; [by apply list_elem_of_In|]. unfold is_theme. by rewrite Hid.
    + assert (Hk : forall l a, replay (kill_log l) a = a).
      { induction l as [|t l IH]; intros a; [done|].
        unfold kill_log in *. simpl. rewrite replay_app, IH.
        by destruct (is_theme t). }
      apply Hk.
  - intros s h m. eexists. eexists. split; [apply run_task_init|].
    cbn [w_triggers after]. rewrite (kill_from_wf _ Hnd).
    split; [done|]. split; [apply fresh_vars|].
    apply fresh_is_theme, Forall_forall. intros v Hv.
    by eapply plan_theme_id.
  - intros config. rewrite initParallax_run.
    destruct (querySelector ".hero-container" (w_doc w)) as [hc|],
             (querySelector ".hero-bg" (w_doc w)) as [hb|].
    + eexists. eexists. split; [done|]. cbn [w_triggers after].
      split; [done|]. by repeat constructor.
    + exists w, []. by rewrite app_nil_r.
    + exists w, []. by rewrite app_nil_r.
    + exists w, []. by rewrite app_nil_r.
  - intros sel child start w' Hrun. rewrite initSectionEntrance_run in Hrun.
    destruct (querySelector sel (w_doc w)) as [e|].
    + destruct (invalid_selector child); [discriminate Hrun|].
      destruct (w_descendants w e child) as [[|c cs]|]; [| |discriminate Hrun];
        injection Hrun as <-.
      * exists []. by rewrite app_nil_r.
      * eexists. cbn [w_triggers after]. split; [done|]. by repeat constructor.
    + injection Hrun as <-. exists []. by rewrite app_nil_r.
Qed.

Lemma teardown_keeps_animation_triggers :
  exists w',
    killThemeTriggers mixed_registry = Ok tt w' /\
    map tr_handle (w_triggers w') = [0; 2]%nat /\
    exists w1 new,
      ScrollAnimations.initSectionEntrance ".section-content" ".card" "top 80%"
        entrance_page = Ok tt w1 /\
      w_triggers w1 = new /\ length new = 1%nat /\
      Forall (fun t => v_id (tr_vars t) = None) new.
Proof.
  destruct (teardown_removes_exactly_theme_triggers mixed_registry)
    as [(w' & Hrun & Htr & _) _].
  - apply (bool_decide_unpack _). vm_compute. exact I.
  - exists w'. split; [exact Hrun|]. split; [rewrite Htr; reflexivity|].
    destruct (teardown_removes_exactly_theme_triggers entrance_page)
      as (_ & _ & _ & Hent).
    + apply (bool_decide_unpack _). vm_compute. exact I.
    + destruct (Hent ".section-content" ".card" "top 80%" _
                  ltac:(vm_compute; reflexivity)) as (new & Hnew & Hid).
      eexists. exists new. split; [vm_compute; reflexivity|].
      split; [exact Hnew|]. split; [|exact Hid].
      vm_compute in Hnew. rewrite <- Hnew. reflexivity.
Defined.

(** ** Idempotence of installation *)

Lemma replay_union acts : forall a, replay acts a = writes acts ∪ a.
Proof.
  unfold writes. induction acts as [|act acts IH]; intros a; simpl.
  - by rewrite (left_id_L ∅ (∪)).
  - destruct act; try apply IH.
    rewrite IH, (IH (<[_:=_]> ∅)), <- (assoc_L (∪)). f_equal.
    by rewrite <- insert_union_l, (left_id_L ∅ (∪)).
Qed.

(** Replaying a trace twice writes nothing new. *)
Lemma replay_idem acts a : replay acts (replay acts a) = replay acts a.
Proof.
  rewrite !replay_union. by rewrite (assoc_L (∪)), (idemp_L (∪)).
Qed.

Lemma replay_kill_log l a : replay (kill_log l) a = a.
Proof.
  revert a. induction l as [|t l IH]; intros a; [done|].
  unfold kill_log in *. simpl. rewrite replay_app, IH.
  by destruct (is_theme t).
Qed.

Lemma filter_idem {A} (f : A -> bool) l :
  List.filter f (List.filter f l) = List.filter f l.
Proof.
  induction l as [|x l IH]; simpl; [done|].
  destruct (f x) eqn:E; simpl; by rewrite ?E, IH.
Qed.

Lemma filter_none {A} (f : A -> bool) l :
  Forall (fun x => f x = false) l -> List.filter f l = [].
Proof. induction 1 as [|x l Hx _ IH]; simpl; by rewrite ?Hx. Qed.

Lemma filter_all {A} (f : A -> bool) l :
  Forall (fun x => f x = true) l -> List.filter f l = l.
Proof. induction 1 as [|x l Hx _ IH]; simpl; by rewrite ?Hx, ?IH. Qed.

Lemma fresh_handles n vs : map tr_handle (fresh n vs) = seq n (length vs).
Proof. revert n. induction vs as [|v vs IH]; intros n; simpl; by rewrite ?IH. Qed.

Lemma filter_handles_NoDup (f : Trigger -> bool) ts :
  NoDup (map tr_handle ts) -> NoDup (map tr_handle (List.filter f ts)).
Proof.
  induction ts as [|t ts IH]; simpl; intros Hnd; [constructor|].
  apply NoDup_cons in Hnd as [Ht Hnd]. destruct (f t); simpl; [|by apply IH].
  apply NoDup_cons. split; [|by apply IH].
  intros Hin. apply Ht. apply list_elem_of_In, in_map_iff in Hin as (u & Hu & Hin).
  apply filter_In in Hin as [Hin _].
  apply list_elem_of_In, in_map_iff. eauto.
Qed.

(** Installation keeps the registry well formed. *)
Lemma installed_wf (f : Trigger -> bool) ts n vs :
  NoDup (map tr_handle ts) ->
  Forall (fun t => (tr_handle t < n)%nat) ts ->
  NoDup (map tr_handle (List.filter f ts ++ fresh n vs)).
Proof.
  intros Hnd Hlt. rewrite map_app, fresh_handles. apply NoDup_app.
  split; [by apply filter_handles_NoDup|]. split; [|apply NoDup_seq].
  intros x Hx Hseq. apply elem_of_seq in Hseq as [Hge _].
  apply list_elem_of_In, in_map_iff in Hx as (u & <- & Hin).
  apply filter_In in Hin as [Hin _].
  rewrite Forall_forall in Hlt. apply list_elem_of_In, Hlt in Hin. lia.
Qed.

Lemma light_plan_sublist mk doc sels : forall i,
  sublist (light_plan mk doc i sels) (full_light mk i sels).
Proof.
  induction sels as [|sel sels IH]; intros i; simpl; [constructor|].
  destruct (truthy (querySelector sel doc)); simpl.
  - by apply sublist_skip.
  - by apply sublist_cons.
Qed.

Lemma plan_sublist s h m doc : sublist (plan s h m doc) (full_plan s h m).
Proof.
  unfold full_plan. rewrite (assoc_L (++)).
  destruct s; cbn [plan]; unfold plan_part000, plan_headerTheme, common_plan;
    (apply sublist_app;
     [apply sublist_app; [done | apply light_plan_sublist]|]);
    destruct (_ : bool); try done; by apply sublist_cons.
Qed.

Lemma sublist_map_NoDup {A B} (f : A -> B) (l k : list A) :
  sublist l k -> NoDup (map f k) -> NoDup (map f l).
Proof.
  induction 1 as [|x l k Hs IH|x l k Hs IH]; simpl; intros Hnd; [constructor| |].
  - apply NoDup_cons in Hnd as [Hx Hnd]. apply NoDup_cons. split; [|by apply IH].
    intros Hin. apply Hx.
    apply list_elem_of_In, in_map_iff in Hin as (y & Hy & Hin).
    apply list_elem_of_In, in_map_iff. exists y. split; [done|].
    apply list_elem_of_In. eapply sublist_subseteq; [exact Hs|].
    by apply list_elem_of_In.
  - apply NoDup_cons in Hnd as [_ Hnd]. by apply IH.
Qed.

(** No two bindings of a page plan share an id. *)
Lemma plan_ids_NoDup s h m doc : NoDup (map v_id (plan s h m doc)).
Proof.
  eapply sublist_map_NoDup; [apply plan_sublist|].
  destruct s; apply (bool_decide_unpack _); vm_compute; exact I.
Qed.

Lemma rebaseline_run h m w :
  Part000.rebaseline h m w
  = Ok tt (after w
             (theme_log h m (Part000.calculateInitialTheme (w_doc w) (w_scrollY w)))
             (w_triggers w) (w_next w) []).
Proof.
  unfold Part000.rebaseline. rewrite (bind_Ok _ _ _ _ _ (get_run _)).
  cbv zeta. apply setTheme_run.
Qed.

Lemma replay_trace_part000 h m w a :
  replay (trace_part000 h m w) a
  = replay (theme_log h m (Part000.calculateInitialTheme (w_doc w) (w_scrollY w))
            ++ flat_map (create_log w) (plan_part000 h m (w_doc w))) a.
Proof.
  unfold trace_part000. rewrite !replay_app, replay_kill_log. simpl.
  by rewrite ?replay_app.
Qed.

Lemma replay_trace_headerTheme h m w a :
  replay (trace_headerTheme h m w) a
  = replay (flat_map (create_log w) (plan_headerTheme h m (w_doc w))) a.
Proof.
  unfold trace_headerTheme. by rewrite !replay_app, replay_kill_log.
Qed.

Lemma kill_log_filter l :
  kill_log l
  = map (fun t => AKill (tr_handle t) (v_id (tr_vars t))) (List.filter is_theme l).
Proof.
  induction l as [|t l IH]; [done|].
  unfold kill_log in *. simpl. rewrite IH. by destruct (is_theme t).
Qed.

Lemma new_log_after w a t n f : new_log w (after w a t n f) = a.
Proof. unfold new_log. rewrite after_log. apply drop_app_length. Qed.

Lemma next_frame_run w :
  next_frame w = flush_frames (w_frames w) (set_frames [] w).
Proof. done. Qed.

(** C6. Running the installation routine of either script twice in a row
    leaves the same bindings in the registry and the same attribute store
    as running it once: the second run starts by killing every theme
    trigger the first one created; the theme triggers present afterwards
    are exactly the page plan, with pairwise distinct ids; and once the
    queued frame callbacks have run the attribute stores agree as well. *)
Theorem initThemeTriggers_idempotent :
  forall (s : Script) (h : Element) (m : option Element) (w : World),
    wf_registry w ->
    exists w1 w2,
      run_task (TaskInitThemeTriggers s h m) w = Ok tt w1 /\
      run_task (TaskInitThemeTriggers s h m) w1 = Ok tt w2 /\
      map tr_vars (w_triggers w2) = map tr_vars (w_triggers w1) /\
      map tr_vars (List.filter is_theme (w_triggers w1)) = plan s h m (w_doc w) /\
      map tr_vars (List.filter is_theme (w_triggers w2)) = plan s h m (w_doc w) /\
      NoDup (map v_id (map tr_vars (List.filter is_theme (w_triggers w2)))) /\
      (exists rest,
          new_log w1 w2
          = map (fun t => AKill (tr_handle t) (v_id (tr_vars t)))
              (List.filter is_theme (w_triggers w1)) ++ rest) /\
      w_attrs w2 = w_attrs w1 /\
      (w_frames w = [] ->
       exists w1' w2',
         next_frame w1 = Ok tt w1' /\ next_frame w2 = Ok tt w2' /\
         w_attrs w2' = w_attrs w1').
Proof.
  intros s h m w [Hnd Hlt].
  pose proof (plan_theme_id s h m (w_doc w)) as Hid.
  assert (Hth : forall n, Forall (fun t => is_theme t = true)
                            (fresh n (plan s h m (w_doc w)))).
  { intros n. apply fresh_is_theme, Forall_forall. intros v Hv. by eapply Hid. }
  assert (Hnth : forall n, Forall (fun t => negb (is_theme t) = false)
                             (fresh n (plan s h m (w_doc w)))).
  { intros n. eapply Forall_impl; [apply Hth|]. by intros t ->. }
  assert (Hkept : Forall (fun t => is_theme t = false)
                    (List.filter (fun t => negb (is_theme t)) (w_triggers w))).
  { apply Forall_forall. intros t Ht.
    apply list_elem_of_In, filter_In in Ht as [_ Ht]. by destruct (is_theme t). }
  eexists. eexists. split; [apply run_task_init|].
  split; [apply run_task_init|].
  rewrite new_log_after.
  autorewrite with world. rewrite (kill_from_wf _ Hnd).
  rewrite kill_from_wf by (by apply installed_wf).
  rewrite !List.filter_app, filter_idem, (filter_none _ _ (Hnth _)), app_nil_r.
  rewrite (filter_none _ _ Hkept), !(filter_all _ _ (Hth _)).
  rewrite !map_app, !fresh_vars. cbn [app].
  split; [done|]. split; [done|]. split; [done|].
  split; [apply plan_ids_NoDup|].
  split.
  { destruct s; unfold trace_part000, trace_headerTheme;
      rewrite kill_log_filter; autorewrite with world;
      rewrite !List.filter_app, (filter_none _ _ Hkept), (filter_all _ _ (Hth _));
      eexists; reflexivity. }
  split.
  - destruct s; rewrite ?replay_trace_part000, ?replay_trace_headerTheme;
      autorewrite with world; apply replay_idem.
  - intros Hfr. rewrite !next_frame_run, !after_frames, Hfr. cbn [app].
    destruct s; cbn [app flush_frames run_task].
    + eexists. eexists. split; [|split].
      * step (rebaseline_run h m _). reflexivity.
      * step (rebaseline_run h m _). step (rebaseline_run h m _). reflexivity.
      * cbn [w_attrs w_doc w_scrollY w_triggers w_next after set_frames].
        rewrite !replay_app, !replay_trace_part000. autorewrite with world.
        rewrite !replay_app. cbn [plan].
        set (TL := theme_log _ _ _). set (CL := flat_map _ _).
        rewrite !replay_union. apply map_eq. intros k.
        rewrite !lookup_union.
        by destruct (writes TL !! k), (writes CL !! k), (w_attrs w !! k).
    + eexists. eexists. split; [reflexivity|]. split; [reflexivity|].
      cbn [ret w_attrs after set_frames].
      rewrite !replay_app, !replay_trace_headerTheme. autorewrite with world.
      apply replay_idem.
Qed.

Lemma idempotent_on_mixed_registry :
  exists w1 w2,
    run_task (TaskInitThemeTriggers ScriptPart000 main_header (Some mega_menu))
      mixed_registry = Ok tt w1 /\
    run_task (TaskInitThemeTriggers ScriptPart000 main_header (Some mega_menu))
      w1 = Ok tt w2 /\
    map tr_vars (w_triggers w2) = map tr_vars (w_triggers w1) /\
    w_attrs w2 = w_attrs w1.
Proof.
  destruct (initThemeTriggers_idempotent ScriptPart000 main_header
              (Some mega_menu) mixed_registry)
    as (w1 & w2 & H1 & H2 & H3 & _ & _ & _ & _ & H4 & _).
  - split; apply (bool_decide_unpack _); vm_compute; exact I.
  - exists w1, w2. repeat split; assumption.
Defined.

(** ** The installing sequence *)

Lemma created_app a b : created (a ++ b) = created a ++ created b.
Proof. apply omap_app. Qed.

Lemma created_kill_log l : created (kill_log l) = [].
Proof.
  induction l as [|t l IH]; [done|].
  unfold kill_log in *. simpl. rewrite created_app, IH.
  by destruct (is_theme t).
Qed.

Lemma created_theme_log h m t : created (theme_log h m t) = [].
Proof. by destruct m. Qed.

Lemma created_slots_log v ss : created (slots_log v ss) = [].
Proof.
  induction ss as [|s ss IH]; [done|].
  unfold slots_log in *. simpl. rewrite created_app, IH, app_nil_r.
  unfold slot_log. destruct (callback v s) as [[h m t]|]; [|done].
  apply (created_theme_log h m t).
Qed.

Lemma created_create_logs w vs : created (flat_map (create_log w) vs) = vs.
Proof.
  induction vs as [|v vs IH]; [done|].
  simpl. rewrite created_app, IH. unfold create_log.
  change (created (ACreate v :: slots_log v (fired w v)))
    with (v :: created (slots_log v (fired w v))).
  by rewrite created_slots_log.
Qed.

Lemma created_trace_part000 h m w :
  created (trace_part000 h m w) = plan_part000 h m (w_doc w).
Proof.
  unfold trace_part000.
  rewrite !created_app, created_kill_log, created_theme_log, created_create_logs.
  simpl. by rewrite app_nil_r.
Qed.

Lemma created_trace_headerTheme h m w :
  created (trace_headerTheme h m w) = plan_headerTheme h m (w_doc w).
Proof.
  unfold trace_headerTheme.
  rewrite !created_app, created_kill_log, created_create_logs. done.
Qed.

Lemma theme_log_lookup h m t a :
  replay (theme_log h m t) a !! (el_node h, "data-theme") = Some (theme_str t).
Proof.
  unfold theme_log. destruct m as [e|]; simpl.
  - rewrite lookup_insert. case_decide; [done|]. apply lookup_insert_eq.
  - apply lookup_insert_eq.
Qed.

Lemma header_theme_str h w t :
  getAttribute h "data-theme" w = Some (theme_str t) -> header_theme h w = Some t.
Proof. unfold header_theme. intros ->. by destruct t. Qed.

(** C4. The installation routine of the script with the resolver never
    throws and performs, in this order: one kill per registered trigger
    whose id starts with ["theme-"], the geometry refresh, the write of the
    resolver's baseline, the creation of the page plan's bindings (each
    followed by the callbacks the library fires at creation), and the
    request for an animation frame.  The callback it queues comes last in
    the frame queue and, whenever it runs, writes the resolver's theme: run
    right after installation it leaves the header at the baseline whatever
    the creation callbacks wrote. *)
Theorem installing_sequence :
  forall (h : Element) (m : option Element) (w : World),
  exists w1,
    Part000.initThemeTriggers h m w = Ok tt w1 /\
    new_log w w1
    = map (fun t => AKill (tr_handle t) (v_id (tr_vars t)))
        (List.filter is_theme (w_triggers w))
      ++ [ARefresh]
      ++ theme_log h m (Part000.calculateInitialTheme (w_doc w) (w_scrollY w))
      ++ flat_map (create_log w) (plan_part000 h m (w_doc w))
      ++ [ARequestAnimationFrame] /\
    bindings_created w w1 = plan_part000 h m (w_doc w) /\
    w_frames w1 = w_frames w ++ [TaskRebaseline h m] /\
    (forall w2, exists w3,
        run_task (TaskRebaseline h m) w2 = Ok tt w3 /\
        new_log w2 w3
        = theme_log h m (Part000.calculateInitialTheme (w_doc w2) (w_scrollY w2)) /\
        header_theme h w3
        = Some (Part000.calculateInitialTheme (w_doc w2) (w_scrollY w2))) /\
    (exists w1',
        run_task (TaskRebaseline h m) w1 = Ok tt w1' /\
        header_theme h w1'
        = Some (Part000.calculateInitialTheme (w_doc w) (w_scrollY w))).
Proof.
  intros h m w. eexists. split; [apply part000_run|].
  assert (Hre : forall w2, exists w3,
    run_task (TaskRebaseline h m) w2 = Ok tt w3 /\
    new_log w2 w3
    = theme_log h m (Part000.calculateInitialTheme (w_doc w2) (w_scrollY w2)) /\
    header_theme h w3
    = Some (Part000.calculateInitialTheme (w_doc w2) (w_scrollY w2))).
  { intros w2. eexists. split; [apply rebaseline_run|].
    split; [apply new_log_after|].
    apply header_theme_str. unfold getAttribute. rewrite after_attrs.
    apply theme_log_lookup. }
  unfold bindings_created. rewrite new_log_after.
  split; [|split; [|split; [|split]]].
  - unfold trace_part000. by rewrite kill_log_filter.
  - apply created_trace_part000.
  - apply after_frames.
  - exact Hre.
  - match goal with |- context [run_task _ ?w1] => destruct (Hre w1) as (w3 & Hr & _ & Hh) end.
    exists w3. split; [exact Hr|]. rewrite Hh. by autorewrite with world.
Qed.

(** ** The two scripts compared *)

Lemma same_up_to_leave_back_id l1 l2 :
  Forall2 same_up_to_leave_back l1 l2 -> map v_id l1 = map v_id l2.
Proof.
  induction 1 as [|v1 v2 l1 l2 (Hid & _) _ IH]; simpl; by rewrite ?Hid, ?IH.
Qed.

Lemma scripts_disagree_on_subpage : ~ scripts_agree_up_to_leave_back.
Proof.
  intros H.
  specialize (H main_header (Some mega_menu) subpage _ _
                (part000_run _ _ _) (headerTheme_run _ _ _)).
  apply same_up_to_leave_back_id in H.
  unfold bindings_created in H. rewrite !new_log_after in H.
  rewrite created_trace_part000, created_trace_headerTheme in H.
  vm_compute in H. discriminate H.
Qed.

(** C5 (amended). On every page both installation routines succeed and
    create the same five fixed bindings and the same sub-page light
    bindings.  They differ in three things: the script with the resolver
    writes the baseline before creating bindings and queues the deferred
    re-baseline, the other writes and queues nothing; under a footer
    wrapper the former binds ["theme-subpage-cta"] to [.final-cta] (when
    that is present too) where the latter binds ["theme-subpage-footer"]
    to [.footer-wrapper]; and those two bindings differ in more than a
    leave-back theme. *)
Theorem scripts_differences :
  forall (h : Element) (m : option Element) (w : World),
  exists w1 w2,
    Part000.initThemeTriggers h m w = Ok tt w1 /\
    HeaderTheme.initThemeTriggers h m w = Ok tt w2 /\
    bindings_created w w1
    = common_plan h m (w_doc w)
      ++ (if truthy (querySelector ".footer-wrapper" (w_doc w))
             && truthy (querySelector ".final-cta" (w_doc w))
          then [Part000.theme_subpage_cta h m] else []) /\
    bindings_created w w2
    = common_plan h m (w_doc w)
      ++ (if truthy (querySelector ".footer-wrapper" (w_doc w))
          then [HeaderTheme.theme_subpage_footer h m] else []) /\
    new_log w w1
    = kill_log (w_triggers w) ++ [ARefresh]
      ++ theme_log h m (Part000.calculateInitialTheme (w_doc w) (w_scrollY w))
      ++ flat_map (create_log w) (bindings_created w w1)
      ++ [ARequestAnimationFrame] /\
    new_log w w2
    = kill_log (w_triggers w) ++ [ARefresh]
      ++ flat_map (create_log w) (bindings_created w w2) /\
    w_frames w1 = w_frames w ++ [TaskRebaseline h m] /\
    w_frames w2 = w_frames w /\
    ~ same_up_to_leave_back (Part000.theme_subpage_cta h m)
        (HeaderTheme.theme_subpage_footer h m).
Proof.
  intros h m w. eexists. eexists.
  split; [apply part000_run|]. split; [apply headerTheme_run|].
  unfold bindings_created. rewrite !new_log_after.
  rewrite created_trace_part000, created_trace_headerTheme, !after_frames.
  repeat split; try done.
  - apply app_nil_r.
  - intros (Hid & _). discriminate Hid.
Qed.

(** ** Exactly one theme at all times *)

Lemma theme_str_inj t1 t2 : theme_str t1 = theme_str t2 -> t1 = t2.
Proof. by destruct t1, t2. Qed.

Lemma themed_intro h w t :
  getAttribute h "data-theme" w = Some (theme_str t) -> themed h w.
Proof.
  intros H. exists t. split; [done|]. intros t' H'.
  rewrite H in H'. injection H' as H'. by apply theme_str_inj.
Qed.

Lemma themed_elim h w :
  themed h w -> exists t, w_attrs w !! (el_node h, "data-theme") = Some (theme_str t).
Proof. intros (t & Ht & _). by exists t. Qed.

Lemma themed_attrs h w w' : w_attrs w' = w_attrs w -> themed h w -> themed h w'.
Proof.
  intros Ha (t & Ht & _). apply (themed_intro h w' t).
  unfold getAttribute in *. by rewrite Ha.
Qed.

Lemma replay_themed acts k : forall a : gmap (nat * string) string,
  Forall theme_valued acts ->
  (exists t, a !! k = Some (theme_str t)) ->
  exists t, replay acts a !! k = Some (theme_str t).
Proof.
  induction acts as [|act acts IH]; intros a Hv Ha; [done|].
  apply Forall_cons in Hv as [Hact Hv]. simpl. apply IH; [done|].
  destruct act; try done. rewrite lookup_insert. case_decide; [|done].
  destruct Hact as [->| ->]; [by exists light | by exists dark].
Qed.

Lemma theme_log_valued h m t : Forall theme_valued (theme_log h m t).
Proof.
  unfold theme_log.
  destruct t, m; repeat (apply Forall_cons; split); simpl; auto.
Qed.

Lemma slot_log_valued v s : Forall theme_valued (slot_log v s).
Proof.
  unfold slot_log. destruct (callback v s) as [[h m t]|]; [|constructor].
  constructor; [done|apply theme_log_valued].
Qed.

Lemma create_log_valued w v : Forall theme_valued (create_log w v).
Proof.
  unfold create_log, slots_log. constructor; [done|].
  induction (fired w v) as [|s ss IH]; simpl; [constructor|].
  apply Forall_app. split; [apply slot_log_valued|done].
Qed.

Lemma create_logs_valued w vs : Forall theme_valued (flat_map (create_log w) vs).
Proof.
  induction vs as [|v vs IH]; cbn [flat_map]; [constructor|].
  apply Forall_app. split; [apply create_log_valued|done].
Qed.

Lemma kill_log_valued l : Forall theme_valued (kill_log l).
Proof.
  induction l as [|t l IH]; [constructor|].
  unfold kill_log in *. simpl. apply Forall_app. split; [|done].
  destruct (is_theme t); by repeat constructor.
Qed.

Lemma trace_part000_valued h m w : Forall theme_valued (trace_part000 h m w).
Proof.
  unfold trace_part000.
  apply Forall_app; split; [apply kill_log_valued|].
  apply Forall_cons; split; [done|].
  apply Forall_app; split; [apply theme_log_valued|].
  apply Forall_app; split; [apply create_logs_valued|].
  by apply Forall_cons.
Qed.

Lemma trace_headerTheme_valued h m w :
  Forall theme_valued (trace_headerTheme h m w).
Proof.
  unfold trace_headerTheme.
  apply Forall_app; split; [apply kill_log_valued|].
  apply Forall_cons; split; [done|]. apply create_logs_valued.
Qed.

Lemma themed_after h w acts ts n f :
  Forall theme_valued acts -> themed h w -> themed h (after w acts ts n f).
Proof.
  intros Hv Hw. apply themed_elim in Hw.
  destruct (replay_themed acts _ (w_attrs w) Hv Hw) as [t Ht].
  by apply (themed_intro _ _ t).
Qed.

(** Once [setTheme] has run, later theme-valued writes cannot undo it. *)
Lemma themed_established h m t w pre post ts n f :
  Forall theme_valued post ->
  themed h (after w (pre ++ theme_log h m t ++ post) ts n f).
Proof.
  intros Hv.
  destruct (replay_themed post (el_node h, "data-theme")
              (replay (theme_log h m t) (replay pre (w_attrs w))) Hv) as [t' Ht'].
  - exists t. apply theme_log_lookup.
  - apply (themed_intro _ _ t'). unfold getAttribute.
    by rewrite after_attrs, !replay_app.
Qed.

Lemma run_task_themed task h w w' :
  run_task task w = Ok tt w' -> themed h w -> themed h w'.
Proof.
  destruct task as [s h' m'|s h' m'|h' m']; intros Hrun Hw.
  - rewrite run_task_init in Hrun. injection Hrun as <-.
    apply themed_after; [|done].
    destruct s; [apply trace_part000_valued | apply trace_headerTheme_valued].
  - injection Hrun as <-. by apply (themed_attrs h w).
  - simpl in Hrun. rewrite rebaseline_run in Hrun. injection Hrun as <-.
    apply themed_after; [apply theme_log_valued|done].
Qed.

Lemma step_themed h w w' : step w w' -> themed h w -> themed h w'.
Proof.
  intros Hstep Hw. destruct Hstep as
    [w y | w t s w' Hin Hrun | w task rest w' Hq Hrun
    | w before ms task rest w' Hq Hrun | w ev task w' Hin Hrun
    | w e css w' Hrun].
  - by apply (themed_attrs h w).
  - rewrite fire_run in Hrun. injection Hrun as <-.
    apply themed_after; [apply slot_log_valued|done].
  - eapply run_task_themed; [exact Hrun|]. by apply (themed_attrs h w).
  - eapply run_task_themed; [exact Hrun|]. by apply (themed_attrs h w).
  - eapply run_task_themed; [exact Hrun|done].
  - rewrite setAttribute_run in Hrun. injection Hrun as <-.
    destruct Hw as (t & Ht & _). apply (themed_intro _ _ t).
    unfold getAttribute in *. rewrite after_attrs. simpl.
    rewrite lookup_insert. case_decide as Heq; [discriminate Heq|done].
Qed.

Lemma reachable_themed h w w' : rtc step w w' -> themed h w -> themed h w'.
Proof. induction 1 as [|w w1 w2 Hs _ IH]; [done|]. intros Hw. eauto using step_themed. Qed.

Lemma slots_log_app v l1 l2 :
  slots_log v (l1 ++ l2) = slots_log v l1 ++ slots_log v l2.
Proof. unfold slots_log. by rewrite flat_map_app. Qed.

Lemma slots_log_valued v ss : Forall theme_valued (slots_log v ss).
Proof.
  induction ss as [|s ss IH]; simpl; [constructor|].
  apply Forall_app. split; [apply slot_log_valued|done].
Qed.

(** Creating a binding that the library enters at once leaves a [setTheme]
    call in the trace. *)
Lemma create_logs_establish h m w vs v t :
  v ∈ vs -> onEnter v = arrow h m t -> SEnter ∈ fired w v ->
  exists pre post,
    flat_map (create_log w) vs = pre ++ theme_log h m t ++ post /\
    Forall theme_valued post.
Proof.
  intros Hv He Hf.
  apply list_elem_of_split in Hv as (vs1 & vs2 & ->).
  apply list_elem_of_split in Hf as (l1 & l2 & Hf).
  rewrite flat_map_app. cbn [flat_map]. unfold create_log at 2.
  rewrite Hf, slots_log_app. cbn [slots_log flat_map].
  unfold slot_log at 1. cbn [callback]. rewrite He. unfold arrow.
  exists (flat_map (create_log w) vs1
          ++ ACreate v :: slots_log v l1 ++ [ACallback (v_id v) SEnter]).
  exists (flat_map (slot_log v) l2 ++ flat_map (create_log w) vs2).
  split.
  - repeat (rewrite <- !app_assoc; cbn [app]). reflexivity.
  - apply Forall_app. split; [apply (slots_log_valued v l2)|].
    apply create_logs_valued.
Qed.

(** On a page of any archetype one of the five fixed bindings has no
    section to bind to. *)
Lemma archetype_unmatched a s h m doc :
  archetype_page a doc ->
  exists v sel t,
    v ∈ plan s h m doc /\ v_trigger v = TSelector sel /\
    v_start v = Some "top 100px" /\ querySelector sel doc = None /\
    onEnter v = arrow h m t.
Proof.
  intros Ha.
  assert (Hfix : forall v, v ∈ fixed_bindings h m -> v ∈ plan s h m doc).
  { intros v Hv. destruct s; simpl; unfold plan_part000, plan_headerTheme,
      common_plan; rewrite !elem_of_app; left; left; exact Hv. }
  destruct a; apply Forall_cons in Ha as [Hq _].
  - exists (Part000.theme_contact_section h m), ".section-contact", light.
    split; [|done]. apply Hfix. unfold fixed_bindings.
    rewrite !elem_of_cons. by do 3 right; left.
  - exists (Part000.theme_cabinet h m), ".cabinet-preview", light.
    split; [apply Hfix; by left|done].
  - exists (Part000.theme_cabinet h m), ".cabinet-preview", light.
    split; [apply Hfix; by left|done].
Qed.

(** C2. Once either installation routine has run on a page of one of
    the three archetypes, the header's [data-theme] is exactly one of
    ["light"] and ["dark"] in every state the page can reach (scrolling,
    trigger callbacks, animation frames, timers, listeners, tweens
    writing inline styles).  For the script with the resolver this holds
    on any document: it writes a baseline before it creates its triggers.
    [headerTheme.js] writes none: on an archetype page its header is
    themed by the [onEnter] that the library runs when it creates a fixed
    binding whose section the page lacks ([enters_unmatched]), and on any
    document it stays themed if it was when the routine started. *)
Theorem theme_defined_after_install :
  theme_always_defined ScriptPart000 /\
  (forall h m w w1,
      themed h w ->
      run_task (TaskInitThemeTriggers ScriptHeaderTheme h m) w = Ok tt w1 ->
      forall w2, rtc step w1 w2 -> themed h w2) /\
  (forall (s : Script) (a : Archetype) h m w w1,
      archetype_page a (w_doc w) ->
      enters_unmatched w ->
      run_task (TaskInitThemeTriggers s h m) w = Ok tt w1 ->
      forall w2, rtc step w1 w2 -> themed h w2).
Proof.
  assert (H1 : theme_always_defined ScriptPart000).
  { intros h m w w1 Hrun w2 Hreach. apply (reachable_themed h w1); [done|].
    rewrite run_task_init in Hrun. injection Hrun as <-.
    unfold trace_part000. rewrite (assoc_L (++) (kill_log _)).
    apply themed_established. apply Forall_app.
    split; [apply create_logs_valued | by apply Forall_cons]. }
  split; [exact H1|]. split.
  - intros h m w w1 Hw Hrun w2 Hreach. apply (reachable_themed h w1); [done|].
    eapply run_task_themed; [exact Hrun|done].
  - intros [] a h m w w1 Ha Hlib Hrun w2 Hreach; [by eapply H1|].
    apply (reachable_themed h w1); [done|].
    rewrite run_task_init in Hrun. injection Hrun as <-.
    destruct (archetype_unmatched a ScriptHeaderTheme h m _ Ha)
      as (v & sel & t & Hv & Htr & Hst & Hq & He).
    destruct (create_logs_establish h m w _ v t Hv He (Hlib v sel Htr Hst Hq))
      as (pre & post & Heq & Hpost).
    unfold trace_headerTheme. cbn [plan] in Heq. rewrite Heq.
    rewrite (assoc_L (++) (kill_log _)), (assoc_L (++) _ pre).
    by apply themed_established.
Qed.

Lemma fires_on_load_enters w :
  w_fires w = fires_on_load -> enters_unmatched w.
Proof.
  intros Hw v sel Htr Hst Hq. unfold fired. rewrite Hw. unfold fires_on_load.
  rewrite Htr, Hq, Hst. simpl.
  by apply list_elem_of_singleton.
Qed.

Lemma theme_defined_on_subpage :
  exists w1,
    run_task (TaskInitThemeTriggers ScriptHeaderTheme main_header (Some mega_menu))
      subpage = Ok tt w1 /\
    themed main_header (set_scrollY 700 w1) /\
    header_theme main_header w1 = Some light.
Proof.
  eexists. split; [vm_compute; reflexivity|]. split.
  - eapply (proj2 (proj2 theme_defined_after_install) ScriptHeaderTheme SubPage
              main_header (Some mega_menu) subpage).
    + apply (bool_decide_unpack _). vm_compute. exact I.
    + by apply fires_on_load_enters.
    + vm_compute; reflexivity.
    + apply rtc_once, step_scroll.
  - vm_compute. reflexivity.
Defined.

(** ** Absent sections *)

Lemma bindings_created_init s h m w w1 :
  run_task (TaskInitThemeTriggers s h m) w = Ok tt w1 ->
  bindings_created w w1 = plan s h m (w_doc w).
Proof.
  rewrite run_task_init. intros H. injection H as <-.
  unfold bindings_created. rewrite new_log_after.
  destruct s; [apply created_trace_part000 | apply created_trace_headerTheme].
Qed.

(** Whether a binding is created depends on the presence of its own
    section only, except that ["theme-subpage-cta"] also needs the footer
    wrapper. *)
Lemma plan_transfer s h m doc doc' v :
  v ∈ plan s h m doc ->
  section_present v doc' ->
  (v_id v = Some "theme-subpage-cta" ->
   is_Some (querySelector ".footer-wrapper" doc')) ->
  v ∈ plan s h m doc'.
Proof.
  intros Hv Hp Hfw. apply plan_inv in Hv.
  assert (Hc : forall x, x ∈ common_plan h m doc' -> x ∈ plan s h m doc').
  { intros x Hx. destruct s; apply elem_of_app; by left. }
  destruct Hv as [Hv | [(k & sel & Hk & -> & _) | [(-> & -> & _) | (-> & -> & _)]]].
  - apply Hc, elem_of_app. by left.
  - apply Hc, elem_of_app. right.
    by apply (light_plan_intro _ _ _ 0%nat k sel).
  - destruct (Hfw eq_refl) as [fw Hfw']. destruct Hp as [cta Hcta].
    apply elem_of_app. right. simpl in Hcta. rewrite Hfw', Hcta. simpl.
    by apply list_elem_of_singleton.
  - destruct Hp as [fw Hfw']. apply elem_of_app. right. simpl in Hfw'.
    rewrite Hfw'. simpl. by apply list_elem_of_singleton.
Qed.

Lemma footer_removal_suppresses_cta_binding : ~ removal_never_suppresses.
Proof.
  intros H.
  specialize (H ScriptPart000 main_header (Some mega_menu) subpage
                ".footer-wrapper" _ _
                (run_task_init _ _ _ _) (run_task_init _ _ _ _)
                (Part000.theme_subpage_cta main_header (Some mega_menu))).
  unfold bindings_created in H. rewrite !new_log_after in H.
  rewrite !created_trace_part000 in H.
  revert H. apply (bool_decide_unpack _). vm_compute. exact I.
Qed.

(** C8 (amended). Whatever section is removed from the document, the
    installation routine of either script still runs to completion, and
    every binding it created before whose own section is still present is
    created again, with one exception by design: ["theme-subpage-cta"],
    bound to [.final-cta], is created only while [.footer-wrapper] is
    present too. *)
Theorem absent_section_robustness :
  forall (s : Script) (h : Element) (m : option Element) (w : World)
         (sel : string),
  exists w1 w2,
    run_task (TaskInitThemeTriggers s h m) w = Ok tt w1 /\
    run_task (TaskInitThemeTriggers s h m)
      (set_doc (remove_section sel (w_doc w)) w) = Ok tt w2 /\
    forall v,
      v ∈ bindings_created w w1 ->
      section_present v (remove_section sel (w_doc w)) ->
      (v_id v = Some "theme-subpage-cta" ->
       is_Some (querySelector ".footer-wrapper" (remove_section sel (w_doc w)))) ->
      v ∈ bindings_created (set_doc (remove_section sel (w_doc w)) w) w2.
Proof.
  intros s h m w sel.
  destruct (run_task (TaskInitThemeTriggers s h m) w) as [[] w1|] eqn:E1;
    [|by rewrite run_task_init in E1].
  destruct (run_task (TaskInitThemeTriggers s h m)
              (set_doc (remove_section sel (w_doc w)) w)) as [[] w2|] eqn:E2;
    [|by rewrite run_task_init in E2].
  exists w1, w2. split; [done|]. split; [done|].
  intros v Hv Hp Hfw.
  rewrite (bindings_created_init _ _ _ _ _ E1) in Hv.
  rewrite (bindings_created_init _ _ _ _ _ E2).
  by apply (plan_transfer s h m (w_doc w)).
Qed.

Lemma light_binding_survives_footer_removal :
  exists w1 w2,
    run_task (TaskInitThemeTriggers ScriptPart000 main_header (Some mega_menu))
      subpage = Ok tt w1 /\
    run_task (TaskInitThemeTriggers ScriptPart000 main_header (Some mega_menu))
      (set_doc (remove_section ".footer-wrapper" (w_doc subpage)) subpage)
    = Ok tt w2 /\
    Part000.theme_subpage_light main_header (Some mega_menu) ".section-content" 3
    ∈ bindings_created
        (set_doc (remove_section ".footer-wrapper" (w_doc subpage)) subpage) w2.
Proof.
  destruct (absent_section_robustness ScriptPart000 main_header (Some mega_menu)
              subpage ".footer-wrapper") as (w1 & w2 & H1 & H2 & H).
  exists w1, w2. split; [exact H1|]. split; [exact H2|]. apply H.
  - rewrite (bindings_created_init _ _ _ _ _ H1).
    apply (bool_decide_unpack _). vm_compute. exact I.
  - eexists. vm_compute. reflexivity.
  - discriminate.
Defined.

(** ** Missing header *)

Lemma initHeaderThemeLogic_no_header s w :
  querySelector "#main-header" (w_doc w) = None ->
  entry_point s w
  = Ok tt (set_log (w_log w ++ [ARegisterPlugin]) (set_plugin true w)).
Proof.
  intros H.
  destruct s; unfold entry_point, Part000.initHeaderThemeLogic,
    HeaderTheme.initHeaderThemeLogic, gsap_registerPlugin, emit, modify,
    document_querySelector, document_getElementById, bind; simpl;
    by rewrite H.
Qed.

(** C9. When [#main-header] is not in the document, the entry point of
    either script returns normally having written no attribute, created
    or killed no trigger and scheduled no timer, listener or frame
    callback; all it has done is register the ScrollTrigger plugin. *)
Theorem missing_header_is_noop :
  forall (s : Script) (w : World),
    querySelector "#main-header" (w_doc w) = None ->
    exists w',
      entry_point s w = Ok tt w' /\
      w_attrs w' = w_attrs w /\
      w_triggers w' = w_triggers w /\
      w_next w' = w_next w /\
      w_timers w' = w_timers w /\
      w_listeners w' = w_listeners w /\
      w_frames w' = w_frames w /\
      w_doc w' = w_doc w /\
      w_scrollY w' = w_scrollY w /\
      new_log w w' = [ARegisterPlugin].
Proof.
  intros s w H. eexists. split; [by apply initHeaderThemeLogic_no_header|].
  repeat split. unfold new_log. simpl. apply drop_app_length.
Qed.

Lemma missing_header_on_headerless_page :
  exists w',
    entry_point ScriptPart000 headerless_page = Ok tt w' /\
    w_attrs w' = w_attrs headerless_page /\
    w_triggers w' = w_triggers headerless_page.
Proof.
  destruct (missing_header_is_noop ScriptPart000 headerless_page)
    as (w' & Hrun & Ha & Ht & _).
  - vm_compute. reflexivity.
  - exists w'. repeat split; assumption.
Defined.

(** X1. With the header present the entry point of either script writes
    no attribute and touches no trigger: it only schedules the
    installation routine, closed over the header and the mega menu it
    found, with a 300 ms timer when the document is already complete and
    with a load listener otherwise. *)
Lemma entry_point_schedules s w h :
  querySelector "#main-header" (w_doc w) = Some h ->
  exists w',
    entry_point s w = Ok tt w' /\
    w_attrs w' = w_attrs w /\
    w_triggers w' = w_triggers w /\
    match w_readyState w with
    | Complete =>
        w_timers w'
        = w_timers w
          ++ [(300, TaskInitThemeTriggers s h
                      (getElementById "mega-menu" (w_doc w)))] /\
        w_listeners w' = w_listeners w
    | _ =>
        w_listeners w'
        = w_listeners w
          ++ [("load", TaskOnLoad s h (getElementById "mega-menu" (w_doc w)))] /\
        w_timers w' = w_timers w
    end.
Proof.
  intros H.
  destruct s; unfold entry_point, Part000.initHeaderThemeLogic,
    HeaderTheme.initHeaderThemeLogic, gsap_registerPlugin, emit, modify,
    document_querySelector, document_getElementById, bind, get; simpl;
    rewrite H;
    change (w_readyState (set_log (w_log w ++ [ARegisterPlugin])
                            (set_plugin true w)))
      with (w_readyState w);
    destruct (w_readyState w); eexists; (split; [reflexivity|]); done.
Qed.

(** ** The resolver on sample pages *)

Lemma calculateInitialTheme_on_subpage :
  Part000.calculateInitialTheme subpage_doc 499 = dark /\
  Part000.calculateInitialTheme subpage_doc 500 = light /\
  Part000.calculateInitialTheme [main_header; section_content] 0 = light.
Proof.
  assert (Hhero : is_Some (Part000.hasHero subpage_doc))
    by (eexists; vm_compute; reflexivity).
  assert (Hmin : min_candidate_top subpage_doc 600).
  { split.
    - exists ".section-content", section_content.
      split; [apply (bool_decide_unpack _); vm_compute; exact I|].
      split; reflexivity.
    - intros sel e Hin Hq.
      repeat (apply elem_of_cons in Hin as [->|Hin]);
        try (by apply elem_of_nil in Hin);
        vm_compute in Hq; try discriminate Hq.
      injection Hq as <-. simpl. lia. }
  split; [|split].
  - apply (proj2 (calculateInitialTheme_threshold subpage_doc 499) 600
             Hhero Hmin). lia.
  - apply (proj2 (calculateInitialTheme_threshold subpage_doc 500) 600
             Hhero Hmin). lia.
  - apply (proj1 (calculateInitialTheme_threshold
                    [main_header; section_content] 0)).
    vm_compute. reflexivity.
Defined.

Lemma calculateInitialTheme_on_hero_only_page :
  Part000.calculateInitialTheme [main_header; page_hero] 100000 = dark.
Proof.
  apply calculateInitialTheme_hero_only_dark.
  - eexists. vm_compute. reflexivity.
  - intros sel Hin.
    repeat (apply elem_of_cons in Hin as [->|Hin]);
      try (by apply elem_of_nil in Hin); vm_compute; reflexivity.
Defined.

(** * Further properties of the scripts *)

(** ** The resolver along the scroll axis *)

Lemma visit_scroll_independent doc s s' acc sel :
  Part000.visit doc s acc sel = Part000.visit doc s' acc sel.
Proof.
  unfold Part000.visit. destruct (querySelector sel doc) as [e|]; [|done].
  by rewrite !absoluteTop_scroll_independent.
Qed.

Lemma firstContentTop_scroll_independent doc s s' :
  Part000.firstContentTop doc s = Part000.firstContentTop doc s'.
Proof.
  unfold Part000.firstContentTop. generalize Infinity.
  induction Part000.contentSections as [|sel l IH]; intros acc; simpl; [done|].
  by rewrite (visit_scroll_independent doc s s'), IH.
Qed.

(** X9. The resolver has a single switch point along the scroll axis: the
    boundary it compares against does not depend on the scroll offset,
    once it answers light it answers light at every larger offset, and
    where it answers dark it answers dark at every smaller one. *)
Theorem calculateInitialTheme_monotone :
  forall (doc : list Element) (s s' : Z),
    s <= s' ->
    Part000.firstContentTop doc s = Part000.firstContentTop doc s' /\
    (Part000.calculateInitialTheme doc s = light ->
     Part000.calculateInitialTheme doc s' = light) /\
    (Part000.calculateInitialTheme doc s' = dark ->
     Part000.calculateInitialTheme doc s = dark).
Proof.
  intros doc s s' Hle.
  split; [apply firstContentTop_scroll_independent|].
  unfold Part000.calculateInitialTheme.
  rewrite (firstContentTop_scroll_independent doc s s').
  destruct (truthy (Part000.hasHero doc)); simpl; [|done].
  destruct (Part000.firstContentTop doc s') as [z|]; simpl; [|done].
  destruct (Z.ltb_spec s (z - 100)), (Z.ltb_spec s' (z - 100));
    split; intros; try done; lia.
Qed.

Lemma calculateInitialTheme_stays_light_on_subpage :
  Part000.calculateInitialTheme subpage_doc 3000 = light.
Proof.
  apply (proj1 (proj2 (calculateInitialTheme_monotone subpage_doc 500 3000
                         ltac:(lia)))).
  vm_compute. reflexivity.
Defined.

(** ** [setTheme] *)

(** X3. [setTheme] writes the theme to the header's [data-theme] and,
    when there is a mega menu, the same value to the mega menu's; it
    leaves every other attribute and the trigger registry alone, and
    applying the same theme a second time changes nothing. *)
Theorem setTheme_spec :
  forall (h : Element) (m : option Element) (t : Theme) (w : World),
  exists w',
    setTheme h m t w = Ok tt w' /\
    getAttribute h "data-theme" w' = Some (theme_str t) /\
    (forall e, m = Some e -> getAttribute e "data-theme" w' = Some (theme_str t)) /\
    (forall k, k <> (el_node h, "data-theme") ->
               (forall e, m = Some e -> k <> (el_node e, "data-theme")) ->
               w_attrs w' !! k = w_attrs w !! k) /\
    w_triggers w' = w_triggers w /\
    (exists w'', setTheme h m t w' = Ok tt w'' /\ w_attrs w'' = w_attrs w').
Proof.
  intros h m t w. eexists. split; [apply setTheme_run|].
  autorewrite with world. unfold getAttribute. rewrite after_attrs.
  split; [apply theme_log_lookup|].
  split; [|split; [|split]].
  - intros e ->. simpl. apply lookup_insert_eq.
  - intros k Hh Hm. destruct m as [e|]; simpl.
    + rewrite !lookup_insert_ne; [done| |]; apply not_eq_sym; auto.
    + rewrite lookup_insert_ne; [done|]. by apply not_eq_sym.
  - done.
  - eexists. split; [apply setTheme_run|].
    rewrite !after_attrs. apply replay_idem.
Qed.

(** ** [cleanupAnimations] *)

Lemma filter_filter_bool {A} (f g : A -> bool) l :
  List.filter f (List.filter g l) = List.filter (fun x => g x && f x) l.
Proof.
  induction l as [|x l IH]; simpl; [done|].
  destruct (g x); simpl; [destruct (f x)|]; by rewrite ?IH.
Qed.

Lemma replay_silent acts a : Forall silent acts -> replay acts a = a.
Proof.
  intros H. revert a. induction H as [|act acts Ha _ IH]; intros a; [done|].
  simpl. rewrite IH. by destruct act.
Qed.

Lemma kill_all_run l : forall i w,
  forEach_from i (fun trigger (_ : nat) => kill trigger) l w
  = Ok tt (after w
             (map (fun t => AKill (tr_handle t) (v_id (tr_vars t))) l)
             (List.filter
                (fun u => negb (existsb
                   (fun t => Nat.eqb (tr_handle u) (tr_handle t)) l))
                (w_triggers w))
             (w_next w) []).
Proof.
  induction l as [|t l IH]; intros i w; simpl.
  - unfold ret. rewrite (filter_all (fun _ => true)); [by rewrite after_nil|].
    by apply Forall_forall.
  - step (kill_run t w). rewrite IH. autorewrite with world.
    rewrite filter_filter_bool. do 2 f_equal.
    apply filter_ext. intros u. by rewrite negb_orb.
Qed.

(** X6. [cleanupAnimations] never throws and empties the ScrollTrigger
    registry: it kills every registered trigger, the theme triggers of the
    header scripts included, one kill per trigger in registry order, and
    writes no attribute. *)
Theorem cleanupAnimations_kills_all :
  forall w : World,
  exists w',
    ScrollAnimations.cleanupAnimations w = Ok tt w' /\
    w_triggers w' = [] /\
    new_log w w'
    = map (fun t => AKill (tr_handle t) (v_id (tr_vars t))) (w_triggers w) /\
    w_attrs w' = w_attrs w /\
    w_frames w' = w_frames w.
Proof.
  intros w. eexists. split.
  - unfold ScrollAnimations.cleanupAnimations, forEach.
    rewrite (bind_Ok _ _ _ _ _ (eq_refl : ScrollTrigger_getAll w = Ok _ w)).
    apply kill_all_run.
  - rewrite new_log_after. autorewrite with world.
    split; [|split; [done|split]].
    + apply filter_none, Forall_forall. intros u Hu.
      apply negb_false_iff, existsb_exists. exists u.
      split; [by apply list_elem_of_In | apply Nat.eqb_refl].
    + apply replay_silent, Forall_forall. intros a Ha.
      apply list_elem_of_In, in_map_iff in Ha as (t & <- & _). done.
    + apply app_nil_r.
Qed.

(** ** [initParallax] and [initSectionEntrance] *)

Lemma create_log_no_callbacks w v :
  (forall s, callback v s = None) -> create_log w v = [ACreate v].
Proof.
  intros H. unfold create_log, slots_log. f_equal.
  induction (fired w v) as [|s ss IH]; [done|].
  simpl. unfold slot_log at 1. by rewrite H.
Qed.

Lemma styles_only_mono es es' a :
  es ⊆ es' -> styles_only es a -> styles_only es' a.
Proof.
  intros Hsub. destruct a; try done. intros [-> Hn]. split; [done|].
  apply list_elem_of_In, in_map_iff in Hn as (e & <- & He).
  apply list_elem_of_In, in_map. apply list_elem_of_In, Hsub.
  by apply list_elem_of_In.
Qed.

Lemma render_log_styles w es : Forall (styles_only es) (render_log w es).
Proof.
  induction es as [|e es IH]; [constructor|].
  unfold render_log in *. cbn [flat_map]. apply Forall_app. split.
  - destruct (w_render w e); repeat constructor.
  - eapply Forall_impl; [exact IH|]. intros a. apply styles_only_mono.
    intros x Hx. by right.
Qed.

(** X7. [initParallax] never throws.  If [.hero-container] or [.hero-bg]
    is missing it changes nothing at all.  If both are present it creates
    one tween on [.hero-container]: the only attribute the call writes is
    that element's inline style, with what GSAP renders while it creates
    the tween, and it registers exactly one trigger, without id or
    callbacks, bound to [body] from ["top top"] to the configured end with
    scrubbing on. *)
Theorem initParallax_spec :
  forall (config : ScrollAnimations.HeroAnimationConfig) (w : World),
  exists w',
    ScrollAnimations.initParallax config w = Ok tt w' /\
    (querySelector ".hero-container" (w_doc w) = None \/
     querySelector ".hero-bg" (w_doc w) = None -> w' = w) /\
    (forall heroContent,
        querySelector ".hero-container" (w_doc w) = Some heroContent ->
        is_Some (querySelector ".hero-bg" (w_doc w)) ->
        w_triggers w'
        = w_triggers w
          ++ [{| tr_handle := w_next w;
                 tr_vars :=
                   {| v_id := None; v_trigger := TSelector "body";
                      v_start := Some "top top";
                      v_end := Some (ScrollAnimations.parallaxEnd config);
                      v_refreshPriority := None;
                      onEnter := None; onLeaveBack := None;
                      onLeave := None; onEnterBack := None;
                      v_scrub := true; v_toggleActions := None |} |}] /\
        new_log w w'
        = render_log w [heroContent]
          ++ [ACreate (ScrollAnimations.parallax_vars config)] /\
        Forall (styles_only [heroContent]) (new_log w w') /\
        w_attrs w'
        = match w_render w heroContent with
          | Some css => <[(el_node heroContent, "style") := css]> (w_attrs w)
          | None => w_attrs w
          end).
Proof.
  intros config w. rewrite initParallax_run.
  destruct (querySelector ".hero-container" (w_doc w)) as [hc|],
           (querySelector ".hero-bg" (w_doc w)) as [hb|].
  - eexists. split; [done|]. split; [intros [H|H]; discriminate H|].
    intros ? [= <-] _. rewrite new_log_after. autorewrite with world.
    rewrite create_log_no_callbacks by by intros [].
    split; [done|]. split; [done|]. split.
    + apply Forall_app. split; [apply render_log_styles|by repeat constructor].
    + rewrite replay_app. unfold render_log. cbn [flat_map].
      by destruct (w_render w hc).
  - exists w. split; [done|]. split; [done|]. by intros ? _ [? H].
  - exists w. split; [done|]. split; [done|]. by intros ? H.
  - exists w. split; [done|]. split; [done|]. by intros ? H.
Qed.

Lemma initParallax_on_parallax_page :
  exists w',
    ScrollAnimations.initParallax ScrollAnimations.MAIN_HERO_CONFIG parallax_page
    = Ok tt w' /\
    map (fun t => v_end (tr_vars t)) (w_triggers w') = [Some "640vh top"] /\
    getAttribute hero_container "style" w'
    = Some "transform: translate(0px, 0px);" /\
    ScrollAnimations.initParallax ScrollAnimations.MAIN_HERO_CONFIG subpage
    = Ok tt subpage.
Proof.
  destruct (initParallax_spec ScrollAnimations.MAIN_HERO_CONFIG parallax_page)
    as (w' & Hrun & _ & Hboth).
  destruct (initParallax_spec ScrollAnimations.MAIN_HERO_CONFIG subpage)
    as (w2 & Hrun2 & Hnone & _).
  exists w'. split; [exact Hrun|].
  destruct (Hboth hero_container) as (Htr & _ & _ & Hat);
    [vm_compute; reflexivity | eexists; vm_compute; reflexivity |].
  split; [rewrite Htr; reflexivity|]. split.
  - unfold getAttribute. rewrite Hat. vm_compute. reflexivity.
  - rewrite Hrun2. f_equal. apply Hnone. left. vm_compute. reflexivity.
Defined.



Lemma setTheme_on_subpage :
  exists w',
    setTheme main_header (Some mega_menu) dark subpage = Ok tt w' /\
    getAttribute mega_menu "data-theme" w' = Some "dark" /\
    w_attrs w' !! (0%nat, "class") = w_attrs subpage !! (0%nat, "class").
Proof.
  destruct (setTheme_spec main_header (Some mega_menu) dark subpage)
    as (w' & Hrun & _ & Hm & Hk & _).
  exists w'. split; [exact Hrun|]. split.
  - apply (Hm mega_menu). reflexivity.
  - apply Hk; [discriminate|]. intros e He. injection He as <-. discriminate.
Defined.

(** ** The page plan *)

Lemma light_plan_none mk doc sels : forall i,
  (forall sel, sel ∈ sels -> querySelector sel doc = None) ->
  light_plan mk doc i sels = [].
Proof.
  induction sels as [|sel sels IH]; intros i H; simpl; [done|].
  rewrite (H sel) by (apply elem_of_cons; by left). simpl.
  apply IH. intros x Hx. apply H, elem_of_cons. by right.
Qed.

Lemma plan_split s h m doc :
  plan s h m doc
  = fixed_bindings h m
    ++ (light_plan (Part000.theme_subpage_light h m) doc 0
          Part000.subPageLightSections
        ++ match s with
           | ScriptPart000 =>
               if truthy (querySelector ".footer-wrapper" doc)
                  && truthy (querySelector ".final-cta" doc)
               then [Part000.theme_subpage_cta h m] else []
           | ScriptHeaderTheme =>
               if truthy (querySelector ".footer-wrapper" doc)
               then [HeaderTheme.theme_subpage_footer h m] else []
           end).
Proof.
  destruct s; cbn [plan]; unfold plan_part000, plan_headerTheme, common_plan,
    fixed_bindings; by rewrite <- app_assoc.
Qed.

(** X10. The installation routine of either script creates the five
    home and contact bindings (cabinet, audience, cta, contact-section,
    faq-section) on every page, in this order and before any other,
    whether or not their sections exist; at most six further bindings
    follow, and none at all on a page that has neither a sub-page light
    section nor a footer wrapper. *)
Theorem fixed_bindings_on_every_page :
  forall (s : Script) (h : Element) (m : option Element) (w : World),
  exists w1 rest,
    run_task (TaskInitThemeTriggers s h m) w = Ok tt w1 /\
    bindings_created w w1 = fixed_bindings h m ++ rest /\
    (length rest <= 6)%nat /\
    ((forall sel, sel ∈ Part000.subPageLightSections ->
                  querySelector sel (w_doc w) = None) ->
     querySelector ".footer-wrapper" (w_doc w) = None ->
     rest = []).
Proof.
  intros s h m w. eexists. eexists. split; [apply run_task_init|].
  rewrite (bindings_created_init s h m w _ (run_task_init s h m w)).
  split; [apply plan_split|]. split.
  - rewrite length_app.
    pose proof (sublist_length _ _
      (light_plan_sublist (Part000.theme_subpage_light h m) (w_doc w)
         Part000.subPageLightSections 0)) as Hl.
    cbn [full_light Part000.subPageLightSections length] in Hl.
    destruct s.
    + destruct (truthy _ && truthy _); cbn [length]; lia.
    + destruct (truthy _); cbn [length]; lia.
  - intros Hnone Hfw. rewrite (light_plan_none _ _ _ _ Hnone), Hfw.
    by destruct s.
Qed.

Lemma fixed_bindings_on_empty_page :
  exists w1,
    run_task (TaskInitThemeTriggers ScriptHeaderTheme main_header None)
      (page [main_header] 0 ∅ fires_on_load) = Ok tt w1 /\
    bindings_created (page [main_header] 0 ∅ fires_on_load) w1
    = fixed_bindings main_header None.
Proof.
  destruct (fixed_bindings_on_every_page ScriptHeaderTheme main_header None
              (page [main_header] 0 ∅ fires_on_load))
    as (w1 & rest & Hrun & Hb & _ & Hnone).
  exists w1. split; [exact Hrun|].
  rewrite Hb, Hnone, app_nil_r; [reflexivity| |].
  - intros sel Hin.
    repeat (apply elem_of_cons in Hin as [->|Hin]);
      try (by apply elem_of_nil in Hin); vm_compute; reflexivity.
  - vm_compute. reflexivity.
Defined.

(** X11. For the k-th selector of [subPageLightSections], the binding
    ["theme-subpage-light-k"] on that selector is created exactly when an
    element matching the selector is in the document: the index in the id
    is the selector's position in the list, whatever other sections are
    present. *)
Theorem light_binding_iff_present :
  forall (s : Script) (h : Element) (m : option Element) (w w1 : World)
         (k : nat) (sel : string),
    run_task (TaskInitThemeTriggers s h m) w = Ok tt w1 ->
    Part000.subPageLightSections !! k = Some sel ->
    (theme_vars ("theme-subpage-light-" ++ show_nat k) sel None
       (arrow h m light) (arrow h m dark) None None
     ∈ bindings_created w w1
     <-> is_Some (querySelector sel (w_doc w))).
Proof.
  intros s h m w w1 k sel Hrun Hk.
  rewrite (bindings_created_init _ _ _ _ _ Hrun).
  change (theme_vars _ sel None _ _ None None)
    with (Part000.theme_subpage_light h m sel k).
  split.
  - intros Hv. apply plan_inv in Hv.
    destruct Hv as [Hv | [(k' & sel' & _ & Heq & Hp) | [(_ & Heq & _) | (_ & Heq & _)]]].
    + repeat (apply elem_of_cons in Hv as [Heq|Hv];
              [apply (f_equal v_id) in Heq; simpl in Heq; discriminate Heq|]).
      by apply elem_of_nil in Hv.
    + apply (f_equal v_trigger) in Heq. simpl in Heq. by injection Heq as ->.
    + apply (f_equal v_id) in Heq. simpl in Heq. discriminate Heq.
    + apply (f_equal v_id) in Heq. simpl in Heq. discriminate Heq.
  - intros Hp. rewrite plan_split. apply elem_of_app. right.
    apply elem_of_app. left.
    by apply (light_plan_intro _ _ _ 0%nat k sel).
Qed.

Lemma light_binding_on_subpage :
  exists w1,
    run_task (TaskInitThemeTriggers ScriptPart000 main_header None) subpage
    = Ok tt w1 /\
    Part000.theme_subpage_light main_header None ".section-content" 3
    ∈ bindings_created subpage w1.
Proof.
  eexists. split; [vm_compute; reflexivity|].
  apply (proj2 (light_binding_iff_present ScriptPart000 main_header None
                  subpage _ 3 ".section-content"
                  ltac:(vm_compute; reflexivity) ltac:(reflexivity))).
  eexists. vm_compute. reflexivity.
Defined.

(** ** Teardown twice *)

(** X12. Running the kill loop a second time finds nothing to do: it
    kills nothing, records nothing and leaves the registry as the first
    run left it; neither run writes an attribute. *)
Theorem killThemeTriggers_idempotent :
  forall w : World,
    NoDup (map tr_handle (w_triggers w)) ->
    exists w1 w2,
      killThemeTriggers w = Ok tt w1 /\
      killThemeTriggers w1 = Ok tt w2 /\
      w_triggers w2 = w_triggers w1 /\
      new_log w1 w2 = [] /\
      w_attrs w2 = w_attrs w.
Proof.
  intros w Hnd. eexists. eexists.
  split; [apply killThemeTriggers_run|].
  split; [apply killThemeTriggers_run|].
  rewrite new_log_after. autorewrite with world.
  rewrite (kill_from_wf _ Hnd).
  rewrite kill_from_wf by (by apply filter_handles_NoDup).
  assert (Hkept : Forall (fun t => is_theme t = false)
                    (List.filter (fun t => negb (is_theme t)) (w_triggers w))).
  { apply Forall_forall. intros t Ht.
    apply list_elem_of_In, filter_In in Ht as [_ Ht]. by destruct (is_theme t). }
  split; [apply filter_idem|].
  assert (Hlog : kill_log (List.filter (fun t => negb (is_theme t)) (w_triggers w))
                 = []).
  { by rewrite kill_log_filter, (filter_none _ _ Hkept). }
  rewrite Hlog. split; [done|]. simpl. apply replay_kill_log.
Qed.

Lemma killThemeTriggers_twice_on_mixed_registry :
  exists w1 w2,
    killThemeTriggers mixed_registry = Ok tt w1 /\
    killThemeTriggers w1 = Ok tt w2 /\
    w_triggers w2 = w_triggers w1.
Proof.
  destruct (killThemeTriggers_idempotent mixed_registry)
    as (w1 & w2 & H1 & H2 & H3 & _).
  - apply (bool_decide_unpack _). vm_compute. exact I.
  - exists w1, w2. repeat split; assumption.
Defined.

(** ** Bindings with an end boundary *)

Lemma fire_sets_theme h m t v s n w :
  callback v s = arrow h m t ->
  exists w',
    fire {| tr_handle := n; tr_vars := v |} s w = Ok tt w' /\
    header_theme h w' = Some t /\
    (forall e, m = Some e -> getAttribute e "data-theme" w' = Some (theme_str t)) /\
    w_triggers w' = w_triggers w.
Proof.
  intros Hc. eexists. split; [apply fire_run|].
  autorewrite with world. unfold getAttribute. rewrite after_attrs.
  cbn [tr_vars]. unfold slot_log. rewrite Hc. unfold arrow.
  change (ACallback (v_id v) s :: theme_log h m t)
    with ([ACallback (v_id v) s] ++ theme_log h m t).
  rewrite replay_app. split; [|split; [|done]].
  - apply header_theme_str. unfold getAttribute. rewrite after_attrs, replay_app.
    apply theme_log_lookup.
  - intros e ->. simpl. apply lookup_insert_eq.
Qed.

Lemma fire_no_callback v s n w :
  callback v s = None -> fire {| tr_handle := n; tr_vars := v |} s w = Ok tt w.
Proof. intros Hc. unfold fire. cbn [tr_vars]. by rewrite Hc. Qed.

(** X14. Among the bindings either script creates, those without an end
    boundary have no leave and no enter-back rule: scrolling past them or
    back into them from below changes nothing.  Those with an end
    boundary (cta, faq-section, subpage-cta) all end at ["bottom 100px"],
    turn the header dark when left forwards and light when re-entered
    from below. *)
Theorem end_boundary_bindings :
  forall (s : Script) (h : Element) (m : option Element) (w w1 : World)
         (v : Vars),
    run_task (TaskInitThemeTriggers s h m) w = Ok tt w1 ->
    v ∈ bindings_created w w1 ->
    (v_end v = None ->
     forall n w0,
       fire {| tr_handle := n; tr_vars := v |} SLeave w0 = Ok tt w0 /\
       fire {| tr_handle := n; tr_vars := v |} SEnterBack w0 = Ok tt w0) /\
    (v_end v <> None ->
     v_end v = Some "bottom 100px" /\
     forall n w0,
       (exists w2, fire {| tr_handle := n; tr_vars := v |} SLeave w0 = Ok tt w2 /\
                   header_theme h w2 = Some dark) /\
       (exists w2, fire {| tr_handle := n; tr_vars := v |} SEnterBack w0 = Ok tt w2 /\
                   header_theme h w2 = Some light)).
Proof.
  intros s h m w w1 v Hrun Hv.
  rewrite (bindings_created_init _ _ _ _ _ Hrun) in Hv. apply plan_inv in Hv.
  assert (Hnone : onLeave v = None -> onEnterBack v = None ->
    forall n w0,
      fire {| tr_handle := n; tr_vars := v |} SLeave w0 = Ok tt w0 /\
      fire {| tr_handle := n; tr_vars := v |} SEnterBack w0 = Ok tt w0).
  { intros H1 H2 n w0. split; by apply fire_no_callback. }
  assert (Hsome : onLeave v = arrow h m dark -> onEnterBack v = arrow h m light ->
    forall n w0,
      (exists w2, fire {| tr_handle := n; tr_vars := v |} SLeave w0 = Ok tt w2 /\
                  header_theme h w2 = Some dark) /\
      (exists w2, fire {| tr_handle := n; tr_vars := v |} SEnterBack w0 = Ok tt w2 /\
                  header_theme h w2 = Some light)).
  { intros H1 H2 n w0. split.
    - destruct (fire_sets_theme h m dark v SLeave n w0 H1) as (w2 & ? & ? & _).
      eauto.
    - destruct (fire_sets_theme h m light v SEnterBack n w0 H2) as (w2 & ? & ? & _).
      eauto. }
  destruct Hv as [Hv | [(k & sel & _ & -> & _) | [(_ & -> & _) | (_ & -> & _)]]].
  - repeat (apply elem_of_cons in Hv as [->|Hv]);
      try (by apply elem_of_nil in Hv);
      (split; [intros He; try discriminate He; by apply Hnone
              |intros He;
               first [by contradiction He | split; [done|by apply Hsome]]]).
  - split; [intros _; by apply Hnone | intros He; by contradiction He].
  - split; [intros He; discriminate He | intros _; split; [done|by apply Hsome]].
  - split; [intros _; by apply Hnone | intros He; by contradiction He].
Qed.

Lemma end_boundary_on_subpage_cta :
  exists w1 w2,
    run_task (TaskInitThemeTriggers ScriptPart000 main_header None) subpage
    = Ok tt w1 /\
    fire {| tr_handle := 6; tr_vars := Part000.theme_subpage_cta main_header None |}
      SLeave w1 = Ok tt w2 /\
    header_theme main_header w2 = Some dark.
Proof.
  eexists.
  destruct (end_boundary_bindings ScriptPart000 main_header None subpage _
              (Part000.theme_subpage_cta main_header None)
              ltac:(vm_compute; reflexivity)) as [_ Hend].
  - rewrite (bindings_created_init ScriptPart000 main_header None subpage _
               ltac:(vm_compute; reflexivity)).
    apply (bool_decide_unpack _). vm_compute. exact I.
  - destruct Hend as [_ Hfire]; [discriminate|].
    destruct (Hfire 6%nat
                (after subpage (trace_part000 main_header None subpage)
                   (kill_from (w_triggers subpage) (w_triggers subpage)
                    ++ fresh (w_next subpage)
                         (plan_part000 main_header None (w_doc subpage)))
                   (w_next subpage
                    + length (plan_part000 main_header None (w_doc subpage)))
                   [TaskRebaseline main_header None]))
      as [(w2 & Hf & Hd) _].
    exists w2. split; [apply part000_run|]. split; [exact Hf|exact Hd].
Defined.

(** ** What installation writes *)

Lemma plan_captures s h m doc v : v ∈ plan s h m doc -> captures h m v.
Proof.
  intros Hv. apply plan_inv in Hv.
  destruct Hv as [Hv | [(k & sel & _ & -> & _) | [(_ & -> & _) | (_ & -> & _)]]].
  - repeat (apply elem_of_cons in Hv as [->|Hv]);
      try (by apply elem_of_nil in Hv);
      intros [] c Hc; simpl in Hc; try discriminate Hc;
      injection Hc as <-; eauto.
  - intros [] c Hc; simpl in Hc; try discriminate Hc; injection Hc as <-; eauto.
  - intros [] c Hc; simpl in Hc; try discriminate Hc; injection Hc as <-; eauto.
  - intros [] c Hc; simpl in Hc; try discriminate Hc; injection Hc as <-; eauto.
Qed.

Lemma theme_log_touches h m t : Forall (touches_only h m) (theme_log h m t).
Proof.
  unfold theme_log. destruct m as [e|]; repeat (apply Forall_cons; split);
    simpl; eauto.
Qed.

Lemma slot_log_touches h m v s : captures h m v -> Forall (touches_only h m) (slot_log v s).
Proof.
  intros Hc. unfold slot_log. destruct (callback v s) as [c|] eqn:E; [|constructor].
  destruct (Hc s c E) as [t ->].
  apply Forall_cons. split; [done|apply theme_log_touches].
Qed.

Lemma create_log_touches h m w v :
  captures h m v -> Forall (touches_only h m) (create_log w v).
Proof.
  intros Hc. unfold create_log, slots_log. apply Forall_cons. split; [done|].
  induction (fired w v) as [|s ss IH]; cbn [flat_map]; [constructor|].
  apply Forall_app. split; [by apply slot_log_touches|done].
Qed.

Lemma create_logs_touches h m w vs :
  Forall (captures h m) vs -> Forall (touches_only h m) (flat_map (create_log w) vs).
Proof.
  induction 1 as [|v vs Hv _ IH]; cbn [flat_map]; [constructor|].
  apply Forall_app. split; [by apply create_log_touches|done].
Qed.

Lemma kill_log_silent l : Forall silent (kill_log l).
Proof.
  induction l as [|t l IH]; [constructor|].
  unfold kill_log in *. simpl. apply Forall_app. split; [|done].
  destruct (is_theme t); by repeat constructor.
Qed.

Lemma silent_touches h m acts :
  Forall silent acts -> Forall (touches_only h m) acts.
Proof. intros H. eapply Forall_impl; [exact H|]. by intros []. Qed.

Lemma trace_touches s h m w :
  Forall (touches_only h m)
    (match s with
     | ScriptPart000 => trace_part000 h m w
     | ScriptHeaderTheme => trace_headerTheme h m w
     end).
Proof.
  assert (Hplan : Forall (captures h m) (plan s h m (w_doc w))).
  { apply Forall_forall. intros v Hv. by eapply plan_captures. }
  destruct s; unfold trace_part000, trace_headerTheme.
  - apply Forall_app; split; [apply silent_touches, kill_log_silent|].
    apply Forall_cons; split; [done|].
    apply Forall_app; split; [apply theme_log_touches|].
    apply Forall_app; split; [by apply create_logs_touches|].
    by apply Forall_cons.
  - apply Forall_app; split; [apply silent_touches, kill_log_silent|].
    apply Forall_cons; split; [done|]. by apply create_logs_touches.
Qed.

Lemma replay_untouched h m acts n name : forall a : gmap (nat * string) string,
  Forall (touches_only h m) acts ->
  (name <> "data-theme" \/
   (n <> el_node h /\ forall e, m = Some e -> n <> el_node e)) ->
  replay acts a !! (n, name) = a !! (n, name).
Proof.
  induction acts as [|act acts IH]; intros a Hall Hk; [done|].
  apply Forall_cons in Hall as [Hact Hall]. simpl. rewrite IH by done.
  destruct act; try done. destruct Hact as [-> Hn].
  apply lookup_insert_ne. intros Heq. injection Heq as ->.
  destruct Hk as [Hk|[Hh Hm]]; [done|].
  destruct Hn as [->|(e & He & ->)]; [done|]. by apply (Hm e).
Qed.

(** X4. The only attributes the installation routine of either script
    ever writes, whatever callbacks the library fires while the bindings
    are created, are [data-theme] of the header and [data-theme] of the
    mega menu: every other attribute of every element is as it was.  The
    same holds for the deferred re-baseline callback. *)
Theorem installation_writes_only_data_theme :
  forall (s : Script) (h : Element) (m : option Element) (w : World),
  exists w1,
    run_task (TaskInitThemeTriggers s h m) w = Ok tt w1 /\
    (forall n name,
        name <> "data-theme" \/
        (n <> el_node h /\ forall e, m = Some e -> n <> el_node e) ->
        w_attrs w1 !! (n, name) = w_attrs w !! (n, name)) /\
    exists w2,
      run_task (TaskRebaseline h m) w1 = Ok tt w2 /\
      (forall n name,
          name <> "data-theme" \/
          (n <> el_node h /\ forall e, m = Some e -> n <> el_node e) ->
          w_attrs w2 !! (n, name) = w_attrs w !! (n, name)).
Proof.
  intros s h m w. eexists. split; [apply run_task_init|].
  rewrite after_attrs. split.
  - intros n name Hk. apply replay_untouched with (h := h) (m := m); [|done].
    apply trace_touches.
  - eexists. split; [apply rebaseline_run|].
    rewrite !after_attrs. intros n name Hk.
    rewrite (replay_untouched h m) by (done || apply theme_log_touches).
    apply replay_untouched with (h := h) (m := m); [|done].
    apply trace_touches.
Qed.

Lemma installation_leaves_class_attribute :
  exists w1,
    run_task (TaskInitThemeTriggers ScriptPart000 main_header (Some mega_menu))
      subpage = Ok tt w1 /\
    w_attrs w1 !! (0%nat, "class") = w_attrs subpage !! (0%nat, "class") /\
    w_attrs w1 !! (3%nat, "data-theme") = w_attrs subpage !! (3%nat, "data-theme").
Proof.
  destruct (installation_writes_only_data_theme ScriptPart000 main_header
              (Some mega_menu) subpage) as (w1 & Hrun & Hk & _).
  exists w1. split; [exact Hrun|]. split; apply Hk.
  - left. discriminate.
  - right. split; [discriminate|]. intros e He. injection He as <-. discriminate.
Defined.

(** ** Header and mega menu *)

Lemma theme_log_agree (h e : Element) (t : Theme) (a : gmap (nat * string) string) :
  replay (theme_log h (Some e) t) a !! (el_node h, "data-theme")
  = replay (theme_log h (Some e) t) a !! (el_node e, "data-theme").
Proof. rewrite theme_log_lookup. simpl. by rewrite lookup_insert_eq. Qed.

Lemma slot_log_agree (h e : Element) (v : Vars) (s : Slot) (a : gmap (nat * string) string) :
  captures h (Some e) v ->
  a !! (el_node h, "data-theme") = a !! (el_node e, "data-theme") ->
  replay (slot_log v s) a !! (el_node h, "data-theme")
  = replay (slot_log v s) a !! (el_node e, "data-theme").
Proof.
  intros Hc Ha. unfold slot_log. destruct (callback v s) as [c|] eqn:E; [|done].
  destruct (Hc s c E) as [t ->].
  change (replay (ACallback (v_id v) s :: theme_log h (Some e) t) a)
    with (replay (theme_log h (Some e) t) a).
  apply theme_log_agree.
Qed.

Lemma create_logs_agree h e w vs : forall a : gmap (nat * string) string,
  Forall (captures h (Some e)) vs ->
  a !! (el_node h, "data-theme") = a !! (el_node e, "data-theme") ->
  replay (flat_map (create_log w) vs) a !! (el_node h, "data-theme")
  = replay (flat_map (create_log w) vs) a !! (el_node e, "data-theme").
Proof.
  intros a Hall. revert a.
  induction Hall as [|v vs Hv _ IH]; intros a Ha; [done|].
  cbn [flat_map]. rewrite replay_app. apply IH.
  unfold create_log, slots_log.
  change (replay (ACreate v :: flat_map (slot_log v) (fired w v)) a)
    with (replay (flat_map (slot_log v) (fired w v)) a).
  revert a Ha. induction (fired w v) as [|s ss IHs]; intros a Ha; [done|].
  cbn [flat_map]. rewrite replay_app. apply IHs. by apply slot_log_agree.
Qed.

Lemma kill_from_not_theme ts t : t ∈ kill_from ts ts -> is_theme t = false.
Proof.
  rewrite kill_from_filter. intros Ht.
  apply list_elem_of_In, filter_In in Ht as [Hin Hk].
  destruct (is_theme t) eqn:E; [|done]. exfalso.
  apply negb_true_iff, not_true_iff_false in Hk. apply Hk.
  apply existsb_exists. exists t. split; [done|]. by rewrite E, Nat.eqb_refl.
Qed.

Lemma fresh_vars_elem n vs t : t ∈ fresh n vs -> tr_vars t ∈ vs.
Proof.
  revert n. induction vs as [|v vs IH]; intros n Ht; simpl in Ht.
  - by apply elem_of_nil in Ht.
  - apply elem_of_cons in Ht as [->|Ht]; apply elem_of_cons; [by left|].
    right. by eapply IH.
Qed.

(** X5. Installed with a mega menu, the script with the resolver leaves
    header and mega menu with the same [data-theme]; [headerTheme.js]
    does so when the two agreed before.  From then on every callback of
    every installed theme trigger keeps them equal, and a callback that is
    defined sets the header to its own theme whatever was there before
    (the last write wins). *)
Theorem header_and_mega_menu_agree :
  forall (s : Script) (h e : Element) (w : World),
    s = ScriptPart000 \/ agree h e w ->
    exists w1,
      run_task (TaskInitThemeTriggers s h (Some e)) w = Ok tt w1 /\
      agree h e w1 /\
      forall t slot,
        t ∈ w_triggers w1 -> is_theme t = true ->
        exists w2,
          fire t slot w1 = Ok tt w2 /\
          agree h e w2 /\
          forall c, callback (tr_vars t) slot = Some c ->
                    header_theme h w2 = Some (closure_theme c).
Proof.
  intros s h e w Hpre.
  assert (Hplan : Forall (captures h (Some e)) (plan s h (Some e) (w_doc w))).
  { apply Forall_forall. intros v Hv. by eapply plan_captures. }
  eexists. split; [apply run_task_init|].
  assert (Hagree : agree h e
            (after w
               match s with
               | ScriptPart000 => trace_part000 h (Some e) w
               | ScriptHeaderTheme => trace_headerTheme h (Some e) w
               end
               (kill_from (w_triggers w) (w_triggers w)
                ++ fresh (w_next w) (plan s h (Some e) (w_doc w)))
               (w_next w + length (plan s h (Some e) (w_doc w)))
               match s with
               | ScriptPart000 => [TaskRebaseline h (Some e)]
               | ScriptHeaderTheme => []
               end)).
  { unfold agree, getAttribute. rewrite after_attrs.
    destruct s.
    - rewrite replay_trace_part000, replay_app.
      apply create_logs_agree; [done|apply theme_log_agree].
    - destruct Hpre as [Hpre|Hpre]; [discriminate Hpre|].
      rewrite replay_trace_headerTheme. by apply create_logs_agree. }
  split; [exact Hagree|].
  intros t slot Ht Hth. rewrite after_triggers in Ht.
  apply elem_of_app in Ht as [Ht|Ht].
  { apply kill_from_not_theme in Ht. congruence. }
  apply fresh_vars_elem in Ht. rewrite Forall_forall in Hplan.
  specialize (Hplan _ Ht).
  eexists. split; [apply fire_run|]. split.
  - unfold agree, getAttribute in *. rewrite after_attrs.
    by apply slot_log_agree.
  - intros c Hc. destruct (Hplan slot c Hc) as [th ->].
    apply header_theme_str. unfold getAttribute. rewrite after_attrs.
    unfold slot_log. rewrite Hc.
    change (replay (ACallback (v_id (tr_vars t)) slot :: theme_log h (Some e) th) ?a)
      with (replay (theme_log h (Some e) th) a).
    apply theme_log_lookup.
Qed.

Lemma header_and_mega_menu_agree_on_subpage :
  exists w1,
    run_task (TaskInitThemeTriggers ScriptPart000 main_header (Some mega_menu))
      subpage = Ok tt w1 /\
    agree main_header mega_menu w1.
Proof.
  destruct (header_and_mega_menu_agree ScriptPart000 main_header mega_menu
              subpage) as (w1 & Hrun & Ha & _).
  - left. reflexivity.
  - exists w1. split; assumption.
Defined.
(** ** Enter / leave-back round trips *)

Lemma fire_rules_run (rules : list (Trigger * Slot)) : forall i w,
  forEach_from i (fun r (_ : nat) => fire r.1 r.2) rules w
  = Ok tt (after w
             (flat_map (fun r : Vars * Slot => slot_log r.1 r.2)
                (map (fun r => (tr_vars r.1, r.2)) rules))
             (w_triggers w) (w_next w) []).
Proof.
  induction rules as [|[t s] rules IH]; intros i w; simpl.
  - unfold ret. by rewrite after_nil.
  - rewrite (bind_Ok _ _ _ _ _ (fire_run _ _ _)), IH.
    simpl w_triggers; simpl w_next. by rewrite after_after.
Qed.

Lemma forEach_map {A B} (g : A -> B) (f : B -> nat -> M unit) l : forall i,
  forEach_from i (fun a n => f (g a) n) l = forEach_from i f (map g l).
Proof. induction l as [|a l IH]; intros i; simpl; by rewrite ?IH. Qed.

Lemma round_trip_run group w :
  round_trip group w
  = Ok tt (after w
             (flat_map (fun r : Vars * Slot => slot_log r.1 r.2)
                (round_trip_rules (group_vars group)))
             (w_triggers w) (w_next w) []).
Proof.
  unfold round_trip, cross_forward, cross_backward, forEach.
  rewrite (forEach_map (fun te : Trigger * Edge => (te.1, forward_slot te.2))
             (fun r (_ : nat) => fire r.1 r.2)).
  rewrite (forEach_map (fun te : Trigger * Edge => (te.1, backward_slot te.2))
             (fun r (_ : nat) => fire r.1 r.2)).
  step (fire_rules_run
          (map (fun te : Trigger * Edge => (te.1, forward_slot te.2)) group)
          0%nat w).
  rewrite fire_rules_run. autorewrite with world.
  unfold round_trip_rules, group_vars.
  by rewrite flat_map_app, <- map_rev, !map_map.
Qed.

Lemma omap_snoc {A B} (f : A -> option B) (l : list A) (x : A) :
  omap f (l ++ [x])
  = omap f l ++ match f x with Some y => [y] | None => [] end.
Proof. rewrite omap_app. f_equal; simpl; by destruct (f x). Qed.

(** After the library has run the rules [rs], the header carries the
    theme of the last one. *)
Lemma replay_rules h m (rs : list (Vars * Slot)) a :
  Forall (fun r => captures h m r.1) rs ->
  replay (flat_map (fun r : Vars * Slot => slot_log r.1 r.2) rs) a
    !! (el_node h, "data-theme")
  = match last (omap rule_theme rs) with
    | Some t => Some (theme_str t)
    | None => a !! (el_node h, "data-theme")
    end.
Proof.
  induction rs as [|[v s] rs IH] using rev_ind; intros Hc; [done|].
  apply Forall_app in Hc as [Hrs Hv]. apply Forall_cons in Hv as [Hv _].
  rewrite flat_map_app, replay_app, omap_snoc. cbn [flat_map].
  rewrite app_nil_r. unfold slot_log, rule_theme at 2. cbn [fst snd] in *.
  destruct (callback v s) as [c|] eqn:E; cbv [fmap option_fmap option_map].
  - destruct (Hv s c E) as [t ->]. cbn [closure_theme]. rewrite last_snoc.
    change (ACallback (v_id v) s :: theme_log h m t)
      with ([ACallback (v_id v) s] ++ theme_log h m t).
    rewrite replay_app. apply theme_log_lookup.
  - rewrite app_nil_r. by apply IH.
Qed.

Lemma header_theme_lookup h w (o : option Theme) w0 :
  w_attrs w !! (el_node h, "data-theme")
  = match o with
    | Some t => Some (theme_str t)
    | None => w_attrs w0 !! (el_node h, "data-theme")
    end ->
  header_theme h w = match o with Some t => Some t | None => header_theme h w0 end.
Proof.
  unfold header_theme, getAttribute. intros ->. by destruct o as [[]|].
Qed.

(** The round trip over any group of theme triggers never throws and
    leaves the header at [round_trip_theme]. *)
Lemma round_trip_header h m group w0 :
  Forall (fun ve : Vars * Edge => captures h m ve.1) (group_vars group) ->
  exists w2,
    round_trip group w0 = Ok tt w2 /\
    header_theme h w2
    = match round_trip_theme (group_vars group) with
      | Some t => Some t
      | None => header_theme h w0
      end.
Proof.
  intros Hc. eexists. split; [apply round_trip_run|].
  apply header_theme_lookup. rewrite after_attrs.
  apply (replay_rules h m). unfold round_trip_rules.
  rewrite Forall_forall in Hc.
  apply Forall_app. split; apply Forall_forall; intros r Hr;
    apply list_elem_of_In, in_map_iff in Hr as (ve & <- & Hve);
    apply Hc, list_elem_of_In; [done|by apply in_rev].
Qed.

Lemma starting_with_fresh v vs : forall n,
  group_vars (starting_with v (fresh n vs))
  = map (fun u => (u, AtStart)) (List.filter (same_start v) vs).
Proof.
  unfold starting_with, group_vars.
  induction vs as [|u vs IH]; intros n; simpl; [done|].
  destruct (same_start v u); simpl; by rewrite IH.
Qed.

Lemma filter_unique {A} (P : A -> bool) (l : list A) (v : A) :
  NoDup l -> v ∈ l -> P v = true ->
  (forall u, u ∈ l -> P u = true -> u = v) ->
  List.filter P l = [v].
Proof.
  induction l as [|x l IH]; intros Hnd Hv Hp Hu.
  - by apply elem_of_nil in Hv.
  - apply NoDup_cons in Hnd as [Hx Hnd]. simpl.
    apply elem_of_cons in Hv as [<-|Hv].
    + rewrite Hp. f_equal. apply filter_none, Forall_forall. intros u Hin.
      destruct (P u) eqn:E; [|done]. exfalso. apply Hx.
      rewrite <- (Hu u); [done|by right|done].
    + destruct (P x) eqn:E.
      * exfalso. apply Hx. rewrite (Hu x); [done|by left|done].
      * apply IH; try done. intros u Hin. apply Hu. by right.
Qed.

(** The concrete shape of a binding of a page plan. *)
Ltac plan_cases H :=
  apply plan_inv in H;
  destruct H as [H | [(?k & ?sel & ?Hk & -> & _)
                     | [(?Hs & -> & _) | (?Hs & -> & _)]]];
  [ repeat (apply elem_of_cons in H as [->|H]);
    try (by apply elem_of_nil in H)
  | repeat (match goal with
            | Hk : _ !! ?k = Some _ |- _ =>
                destruct k; simpl in Hk;
                [injection Hk as <- | try discriminate Hk]
            end)
  | | ].

(** Two bindings of a page plan bound to the same element with the same
    start are one and the same, or ["theme-cta"] and
    ["theme-subpage-cta"]. *)
Lemma plan_same_start s h m doc u v :
  u ∈ plan s h m doc -> v ∈ plan s h m doc -> same_start u v = true ->
  u = v \/
  (v_id u = Some "theme-cta" /\ v_id v = Some "theme-subpage-cta") \/
  (v_id u = Some "theme-subpage-cta" /\ v_id v = Some "theme-cta").
Proof.
  intros Hu Hv Hss. apply bool_decide_eq_true in Hss as [Htr _].
  plan_cases Hu; plan_cases Hv; simpl in Htr; try discriminate Htr;
    first [by left | by right; left | by right; right].
Qed.

Lemma plan_NoDup s h m doc : NoDup (plan s h m doc).
Proof. apply (NoDup_fmap_1 v_id), plan_ids_NoDup. Qed.

Lemma same_start_refl v : same_start v v = true.
Proof. by apply bool_decide_eq_true. Qed.

(** A binding other than the two on [.final-cta] starts alone. *)
Lemma starts_alone s h m doc v :
  v ∈ plan s h m doc ->
  v_id v <> Some "theme-cta" -> v_id v <> Some "theme-subpage-cta" ->
  List.filter (same_start v) (plan s h m doc) = [v].
Proof.
  intros Hv H1 H2.
  apply filter_unique; [apply plan_NoDup|done|apply same_start_refl|].
  intros u Hu Hss.
  destruct (plan_same_start s h m doc v u Hv Hu Hss)
    as [->|[[Hid _]|[Hid _]]]; [done|by destruct H1|by destruct H2].
Qed.

(** [.final-cta] is where ["theme-cta"] starts and, in the script with
    the resolver on a page with a footer wrapper, ["theme-subpage-cta"]
    after it. *)
Lemma starts_with_cta s h m doc :
  List.filter (same_start (Part000.theme_cta h m)) (plan s h m doc)
  = Part000.theme_cta h m ::
    match s with
    | ScriptPart000 =>
        if truthy (querySelector ".footer-wrapper" doc)
           && truthy (querySelector ".final-cta" doc)
        then [Part000.theme_subpage_cta h m] else []
    | ScriptHeaderTheme => []
    end.
Proof.
  assert (Hl : List.filter (same_start (Part000.theme_cta h m))
                 (light_plan (Part000.theme_subpage_light h m) doc 0
                    Part000.subPageLightSections) = []).
  { apply filter_none, Forall_forall. intros u Hu.
    apply light_plan_elem in Hu as (k & sel & Hk & -> & _).
    repeat (destruct k; simpl in Hk;
            [injection Hk as <-; reflexivity | try discriminate Hk]). }
  destruct s; cbn [plan]; unfold plan_part000, plan_headerTheme, common_plan;
    rewrite !List.filter_app, Hl.
  - by destruct (truthy _ && truthy _).
  - by destruct (truthy _).
Qed.

Lemma plan_symmetric s h m doc v :
  v ∈ plan s h m doc ->
  v_id v <> Some "theme-faq-section" -> v_id v <> Some "theme-subpage-cta" ->
  exists t, onEnter v = arrow h m t /\ onLeaveBack v = arrow h m (opposite t).
Proof.
  intros Hv H1 H2.
  plan_cases Hv; try (by destruct H1); try (by destruct H2);
    first [by exists light | by exists dark].
Qed.

Lemma faq_in_plan s h m doc : Part000.theme_faq_section h m ∈ plan s h m doc.
Proof.
  destruct s; simpl; unfold plan_part000, plan_headerTheme, common_plan;
    rewrite !elem_of_app, !elem_of_cons; left; left; do 4 right; by left.
Qed.

Lemma starting_with_captures s h m doc v n :
  Forall (fun ve : Vars * Edge => captures h m ve.1)
    (group_vars (starting_with v (fresh n (plan s h m doc)))).
Proof.
  rewrite starting_with_fresh. apply Forall_forall. intros ve Hve.
  apply list_elem_of_In, in_map_iff in Hve as (u & <- & Hu).
  apply filter_In in Hu as [Hu _].
  apply (plan_captures s h m doc). by apply list_elem_of_In.
Qed.




(** ** From the entry point to the installed plan *)

Lemma entry_point_on_loading_subpage :
  exists w',
    entry_point ScriptPart000 loading_subpage = Ok tt w' /\
    w_listeners w'
    = [("load", TaskOnLoad ScriptPart000 main_header (Some mega_menu))] /\
    w_timers w' = [] /\
    exists w'',
      entry_point ScriptHeaderTheme subpage = Ok tt w'' /\
      w_timers w''
      = [(300, TaskInitThemeTriggers ScriptHeaderTheme main_header
                 (Some mega_menu))].
Proof.
  destruct (entry_point_schedules ScriptPart000 loading_subpage main_header)
    as (w' & Hrun & _ & _ & Hl & Ht); [vm_compute; reflexivity|].
  destruct (entry_point_schedules ScriptHeaderTheme subpage main_header)
    as (w'' & Hrun' & _ & _ & Ht' & _); [vm_compute; reflexivity|].
  exists w'. split; [exact Hrun|]. split; [exact Hl|]. split; [exact Ht|].
  exists w''. split; [exact Hrun'|exact Ht'].
Defined.

Lemma installed_state s h m v fr n' :
  let W := after v
             (match s with
              | ScriptPart000 => trace_part000 h m v
              | ScriptHeaderTheme => trace_headerTheme h m v
              end)
             (kill_from (w_triggers v) (w_triggers v)
              ++ fresh (w_next v) (plan s h m (w_doc v))) n' fr in
  map tr_vars (List.filter is_theme (w_triggers W)) = plan s h m (w_doc v) /\
  (s = ScriptPart000 -> themed h W).
Proof.
  cbv zeta. split.
  - rewrite after_triggers, List.filter_app.
    rewrite (filter_none is_theme (kill_from _ _)).
    + rewrite filter_all; [apply fresh_vars|].
      apply fresh_is_theme, Forall_forall. intros x Hx. by eapply plan_theme_id.
    + apply Forall_forall. intros t Ht.
      by apply (kill_from_not_theme (w_triggers v)).
  - intros ->. unfold trace_part000. rewrite (assoc_L (++) (kill_log _)).
    apply themed_established. apply Forall_app.
    split; [apply create_logs_valued | by apply Forall_cons].
Qed.

(** X2. With the header present, the entry point of either script is
    followed by browser events (the load event when the document was not
    complete yet, then the 300 ms timer) that lead to a state in which the
    theme triggers in the registry are exactly the page plan for the
    header and mega menu the entry point found, the timer has been
    consumed and, for the script with the resolver, the header carries
    one of the two themes. *)
Theorem installation_follows_entry :
  forall (s : Script) (w : World) (h : Element),
    querySelector "#main-header" (w_doc w) = Some h ->
    exists w1 w3,
      entry_point s w = Ok tt w1 /\
      rtc step w1 w3 /\
      map tr_vars (List.filter is_theme (w_triggers w3))
      = plan s h (getElementById "mega-menu" (w_doc w)) (w_doc w) /\
      w_timers w3 = w_timers w /\
      (s = ScriptPart000 -> themed h w3).
Proof.
  intros s w h H.
  set (m := getElementById "mega-menu" (w_doc w)).
  assert (Hinstall : forall v,
    w_doc v = w_doc w ->
    w_timers v = w_timers w ++ [(300, TaskInitThemeTriggers s h m)] ->
    exists w3, rtc step v w3 /\
      map tr_vars (List.filter is_theme (w_triggers w3)) = plan s h m (w_doc w) /\
      w_timers w3 = w_timers w /\ (s = ScriptPart000 -> themed h w3)).
  { intros v Hdoc Ht. eexists. split.
    - apply rtc_once.
      eapply (step_timer v (w_timers w) 300 _ []); [exact Ht|].
      apply run_task_init.
    - destruct (installed_state s h m (set_timers (w_timers w ++ []) v)
                  (match s with
                   | ScriptPart000 => [TaskRebaseline h m]
                   | ScriptHeaderTheme => []
                   end)
                  (w_next v + length (plan s h m (w_doc v)))) as [Hp Hth].
      cbv zeta in Hp, Hth. split; [|split].
      + etransitivity; [exact Hp|]. simpl. by rewrite Hdoc.
      + simpl. apply app_nil_r.
      + exact Hth. }
  destruct (w_readyState w) eqn:R.
  - (* loading: the load listener runs first *)
    eexists.
    edestruct (Hinstall
      (set_log (w_log w ++ [ARegisterPlugin; AAddEventListener "load"; ASetTimeout 300])
         (set_timers (w_timers w ++ [(300, TaskInitThemeTriggers s h m)])
            (set_listeners (w_listeners w ++ [("load", TaskOnLoad s h m)])
               (set_plugin true w))))) as (w3 & Hreach & Hrest);
      [reflexivity | reflexivity |].
    exists w3. split; [|split; [|exact Hrest]].
    + destruct s; unfold entry_point, Part000.initHeaderThemeLogic,
        HeaderTheme.initHeaderThemeLogic, gsap_registerPlugin, emit, modify,
        document_querySelector, document_getElementById, bind, get; simpl;
        rewrite H; simpl; rewrite R; reflexivity.
    + eapply rtc_l; [|exact Hreach].
      eapply (step_listener _ "load" (TaskOnLoad s h m)).
      * simpl. apply elem_of_app. right. by apply list_elem_of_singleton.
      * simpl. unfold setTimeout, emit, modify, bind. simpl.
        by rewrite <- !app_assoc.
  - (* interactive: as above *)
    eexists.
    edestruct (Hinstall
      (set_log (w_log w ++ [ARegisterPlugin; AAddEventListener "load"; ASetTimeout 300])
         (set_timers (w_timers w ++ [(300, TaskInitThemeTriggers s h m)])
            (set_listeners (w_listeners w ++ [("load", TaskOnLoad s h m)])
               (set_plugin true w))))) as (w3 & Hreach & Hrest);
      [reflexivity | reflexivity |].
    exists w3. split; [|split; [|exact Hrest]].
    + destruct s; unfold entry_point, Part000.initHeaderThemeLogic,
        HeaderTheme.initHeaderThemeLogic, gsap_registerPlugin, emit, modify,
        document_querySelector, document_getElementById, bind, get; simpl;
        rewrite H; simpl; rewrite R; reflexivity.
    + eapply rtc_l; [|exact Hreach].
      eapply (step_listener _ "load" (TaskOnLoad s h m)).
      * simpl. apply elem_of_app. right. by apply list_elem_of_singleton.
      * simpl. unfold setTimeout, emit, modify, bind. simpl.
        by rewrite <- !app_assoc.
  - (* complete: the timer is already queued *)
    edestruct (Hinstall
      (set_log (w_log w ++ [ARegisterPlugin; ASetTimeout 300])
         (set_timers (w_timers w ++ [(300, TaskInitThemeTriggers s h m)])
            (set_plugin true w)))) as (w3 & Hreach & Hrest);
      [reflexivity | reflexivity |].
    eexists. exists w3. split; [|split; [exact Hreach|exact Hrest]].
    destruct s; unfold entry_point, Part000.initHeaderThemeLogic,
      HeaderTheme.initHeaderThemeLogic, gsap_registerPlugin, setTimeout, emit,
      modify, document_querySelector, document_getElementById, bind, get;
      simpl; rewrite H; simpl; rewrite R; unfold set_log, set_timers; simpl;
      by rewrite <- !app_assoc.
Qed.

Lemma installation_follows_entry_on_loading_subpage :
  exists w1 w3,
    entry_point ScriptPart000 loading_subpage = Ok tt w1 /\
    rtc step w1 w3 /\
    length (List.filter is_theme (w_triggers w3)) = 7%nat /\
    themed main_header w3.
Proof.
  destruct (installation_follows_entry ScriptPart000 loading_subpage main_header)
    as (w1 & w3 & Hrun & Hreach & Hplan & _ & Hth); [vm_compute; reflexivity|].
  exists w1, w3. split; [exact Hrun|]. split; [exact Hreach|]. split.
  - rewrite <- (length_map tr_vars), Hplan. vm_compute. reflexivity.
  - by apply Hth.
Defined.

(** ** What the resolver looks at *)

Lemma querySelector_ignores sel doc1 e doc2 :
  matches sel e = false ->
  querySelector sel (doc1 ++ e :: doc2) = querySelector sel (doc1 ++ doc2).
Proof.
  intros He. unfold querySelector.
  induction doc1 as [|x doc1 IH]; simpl; [by rewrite He|].
  by destruct (matches sel x).
Qed.

Lemma fold_visit_ext doc doc' s (l : list string) : forall acc,
  (forall sel, sel ∈ l -> querySelector sel doc = querySelector sel doc') ->
  fold_left (Part000.visit doc s) l acc = fold_left (Part000.visit doc' s) l acc.
Proof.
  induction l as [|x l IH]; intros acc H; simpl; [done|].
  rewrite IH by (intros sel Hs; apply H, elem_of_cons; by right).
  f_equal. unfold Part000.visit. rewrite (H x); [done|].
  apply elem_of_cons. by left.
Qed.


